(** * Git-graph layout model (lib/git-graph-model.ts)

    A shallow embedding of [mapPostsToGraph], the pure transformation from a
    list of blog posts to the positioned graph model drawn in the footer,
    and the properties of its output.

    Conventions of the embedding.
    - JavaScript numbers are exact rationals [Q]: every coordinate computed
      here is a sum and product of the layout constants and of array
      indices, and the default constants are small integers (the only
      division is by the literal 2).
    - Strings are [string]; template literals are concatenations ([+:+]);
      [String(n)] of an integer is stdpp's [pretty].
    - The library and built-in functions the source calls ([slug] of
      github-slugger, [toLowerCase], [localeCompare], the [Date] readers) are
      fields of the class [Runtime]; the module [Js] below gives them a concrete
      reading on ASCII text and on [YYYY-MM-DD] dates in a UTC process, used
      for the concrete runs.
    - The ambient clock read by [new Date()] is the explicit argument [now].
    - Dates are assumed parseable (the input contract), so the [Date] readers
      return integers and never NaN. *)

From Stdlib Require Import QArith Qround Lqa Sorted Permutation Ascii String.
From stdpp Require Import base list strings gmap pretty.

Local Open Scope string_scope.
Local Open Scope list_scope.

(** ** Data model *)

Record LayoutConstants := {
  ROW_HEIGHT : Q;
  PADDING_TOP : Q;
  PADDING_BOTTOM : Q;
  MAIN_X : Q;
  BRANCH_SPACING : Q;
  LABEL_WIDTH : Q
}.

Definition LAYOUT_CONSTANTS : LayoutConstants := {|
  ROW_HEIGHT := 48;
  PADDING_TOP := 24;
  PADDING_BOTTOM := 24;
  MAIN_X := 150;
  BRANCH_SPACING := 80;
  LABEL_WIDTH := 100
|}.

(** [CoreContent<Blog>], restricted to the fields the function reads.
    [summary], [tags] and [draft] may be absent. *)
Record Post := {
  post_slug : string;
  post_title : string;
  post_summary : option string;
  post_date : string;
  post_tags : option (list string);
  post_draft : option bool
}.

Record Branch := {
  branch_id : string;
  branch_name : string;
  branch_color : string;
  branch_x : Q
}.

Inductive NodeType := commit | merge | separator | today.
Inductive SeparatorKind := year | month.
Inductive EdgeType := merge_connector | rail.

Record CommitNode := {
  commit_id : string;
  commit_branch : string;
  commit_slug : string;
  commit_title : string;
  commit_summary : option string;
  commit_date : string;
  commit_x : Q;
  commit_y : Q;
  data_testid : string;
  data_slug : string;
  data_branch : string
}.

(** The [branch] field of a merge node has the literal type ['main']; it is
    read back by [node_branch]. *)
Record MergeNode := {
  merge_id : string;
  merge_slug : string;
  merge_date : string;
  merge_x : Q;
  merge_y : Q
}.

Record SeparatorNode := {
  separator_id : string;
  separator_label : string;
  separator_kind : SeparatorKind;
  separator_x : Q;
  separator_y : Q
}.

Record TodayNode := {
  today_id : string;
  today_date : string;
  today_x : Q;
  today_y : Q
}.

Inductive GraphNode :=
| Commit (c : CommitNode)
| Merge (m : MergeNode)
| Separator (s : SeparatorNode)
| Today (t : TodayNode).

Record Edge := {
  edge_id : string;
  edge_from : string;
  edge_to : string;
  edge_type : EdgeType
}.

Record GraphModel := {
  branches : list Branch;
  nodes : list GraphNode;
  edges : list Edge
}.

(** The clock reading: [today] after [setHours(0, 0, 0, 0)], as its
    [getTime()] and as [toISOString().split('T')[0]]. *)
Record Clock := {
  today_time : Z;
  today_iso : string
}.

(** ** Field readers shared by the four node variants *)

Definition node_id (n : GraphNode) : string :=
  match n with
  | Commit c => commit_id c
  | Merge m => merge_id m
  | Separator s => separator_id s
  | Today t => today_id t
  end.

Definition node_type (n : GraphNode) : NodeType :=
  match n with
  | Commit _ => commit
  | Merge _ => merge
  | Separator _ => separator
  | Today _ => today
  end.

Definition node_x (n : GraphNode) : Q :=
  match n with
  | Commit c => commit_x c
  | Merge m => merge_x m
  | Separator s => separator_x s
  | Today t => today_x t
  end.

Definition node_y (n : GraphNode) : Q :=
  match n with
  | Commit c => commit_y c
  | Merge m => merge_y m
  | Separator s => separator_y s
  | Today t => today_y t
  end.

Definition node_branch (n : GraphNode) : option string :=
  match n with
  | Commit c => Some (commit_branch c)
  | Merge _ => Some "main"
  | _ => None
  end.

Definition node_slug (n : GraphNode) : option string :=
  match n with
  | Commit c => Some (commit_slug c)
  | Merge m => Some (merge_slug m)
  | _ => None
  end.

(** The nodes of one variant, in output order. *)
Definition commits (ns : list GraphNode) : list CommitNode :=
  omap (λ n, match n with Commit c => Some c | _ => None end) ns.
Definition merges (ns : list GraphNode) : list MergeNode :=
  omap (λ n, match n with Merge m => Some m | _ => None end) ns.
Definition separators (ns : list GraphNode) : list SeparatorNode :=
  omap (λ n, match n with Separator s => Some s | _ => None end) ns.
Definition todays (ns : list GraphNode) : list TodayNode :=
  omap (λ n, match n with Today t => Some t | _ => None end) ns.

(** ** JavaScript built-ins *)

(** An array index, or any other natural number, as a JavaScript number. *)
Definition num (n : nat) : Q := inject_Z (Z.of_nat n).

(** Truthiness of a string: only the empty string is falsy. *)
Definition truthy (s : string) : bool :=
  match s with "" => false | _ => true end.

(** [!post.draft]: an absent or false flag publishes the post. *)
Definition published (post : Post) : bool :=
  match post_draft post with Some true => false | _ => true end.

(** [post.tags && post.tags.length > 0 ? post.tags[0] : null]. *)
Definition firstTag (post : Post) : option string :=
  match post_tags post with
  | Some (t :: _) => Some t
  | _ => None
  end.

(** [Set<string>]: iteration follows insertion order, and adding a member
    again leaves the set as it is. *)
Definition Set_add (s : list string) (x : string) : list string :=
  if bool_decide (x ∈ s) then s else s ++ [x].

(** [Array.prototype.sort] with a comparator. The built-in sort is stable;
    for a comparator that is a total preorder every stable sort returns the
    same array, computed here by insertion. *)
Fixpoint sort_insert (cmp : string → string → Z) (x : string) (l : list string)
  : list string :=
  match l with
  | [] => [x]
  | y :: l' => if (cmp x y <=? 0)%Z then x :: l else y :: sort_insert cmp x l'
  end.

Definition Array_sort (cmp : string → string → Z) (l : list string) : list string :=
  foldr (sort_insert cmp) [] l.

(** [Array.prototype.forEach], threading the variables its callback
    mutates. *)
Fixpoint forEach_from {A St : Type} (f : A → nat → St → St) (index : nat)
    (l : list A) (s : St) : St :=
  match l with
  | [] => s
  | a :: l' => forEach_from f (S index) l' (f a index s)
  end.

Definition forEach {A St : Type} (f : A → nat → St → St) (l : list A) (s : St) : St :=
  forEach_from f 0 l s.

(** [new Map(entries)]: a later entry replaces an earlier one with the same
    key. *)
Definition Map_of_branches (bs : list Branch) : gmap string Branch :=
  foldl (λ m b, <[branch_id b := b]> m) ∅ bs.

Definition palette : list string :=
  [ "#3b82f6"; "#10b981"; "#f59e0b"; "#ef4444";
    "#8b5cf6"; "#ec4899"; "#06b6d4"; "#f97316" ].

Definition getBranchColor (index : nat) : string :=
  default "undefined" (palette !! (index mod length palette)).

Definition monthNames : list string :=
  [ "Jan"; "Feb"; "Mar"; "Apr"; "May"; "Jun";
    "Jul"; "Aug"; "Sep"; "Oct"; "Nov"; "Dec" ].

(** ** The variables mutated by [mapPostsToGraph] *)

Record State := {
  st_nodes : list GraphNode;
  st_edges : list Edge;
  lastYear : option Z;
  lastMonth : option nat
}.

Definition push_node (n : GraphNode) (st : State) : State :=
  {| st_nodes := st_nodes st ++ [n]; st_edges := st_edges st;
     lastYear := lastYear st; lastMonth := lastMonth st |}.

Definition push_edge (e : Edge) (st : State) : State :=
  {| st_nodes := st_nodes st; st_edges := st_edges st ++ [e];
     lastYear := lastYear st; lastMonth := lastMonth st |}.

Definition set_last (y : Z) (m : nat) (st : State) : State :=
  {| st_nodes := st_nodes st; st_edges := st_edges st;
     lastYear := Some y; lastMonth := Some m |}.

Definition init_state : State :=
  {| st_nodes := []; st_edges := []; lastYear := None; lastMonth := None |}.

(** ** mapPostsToGraph *)

(** The library functions and built-ins the source calls.
    - [slug]: [slug] of github-slugger;
    - [toLowerCase], [localeCompare]: the [String.prototype] methods;
    - [getFullYear s], [getMonth s]: [new Date(s).getFullYear()] and
      [new Date(s).getMonth()];
    - [startOfDay s]: [getTime()] of [new Date(s)] after
      [setHours(0, 0, 0, 0)]. *)
Class Runtime := {
  slug : string → string;
  toLowerCase : string → string;
  localeCompare : string → string → Z;
  getFullYear : string → Z;
  getMonth : string → nat;
  startOfDay : string → Z
}.

Section GitGraphModel.

Context `{Runtime}.

Section WithConstants.

Variable L : LayoutConstants.

(** [LAYOUT_CONSTANTS.PADDING_TOP + index * LAYOUT_CONSTANTS.ROW_HEIGHT]. *)
Definition row_y (index : nat) : Q :=
  (PADDING_TOP L + num index * ROW_HEIGHT L)%Q.

Definition publishedPosts (posts : list Post) : list Post :=
  List.filter published posts.

Definition collectTags (pub : list Post) : list string :=
  forEach (λ post _ tagSet,
             match firstTag post with
             | Some t => Set_add tagSet t
             | None => tagSet
             end) pub [].

Definition compareTags (a b : string) : Z :=
  localeCompare (toLowerCase a) (toLowerCase b).

Definition sortedTags (pub : list Post) : list string :=
  Array_sort compareTags (collectTags pub).

Definition mainBranch : Branch :=
  {| branch_id := "main"; branch_name := "main";
     branch_color := "#6b7280"; branch_x := MAIN_X L |}.

(** The branch of the tag at [index] among [count] sorted tags. *)
Definition tagBranch (count : nat) (index : nat) (tag : string) : Branch :=
  {| branch_id := slug tag;
     branch_name := tag;
     branch_color := getBranchColor index;
     branch_x :=
       (MAIN_X L
        - inject_Z (Z.of_nat count - Z.of_nat index) * BRANCH_SPACING L)%Q |}.

Definition makeBranches (tags : list string) : list Branch :=
  mainBranch :: imap (tagBranch (length tags)) tags.

(** The callback of the first [publishedPosts.forEach]. The [else] branch
    of [if (primaryTag && branch)] is [onMain]: it is taken for a missing
    or empty primary tag and for a branch id absent from the map. *)
Definition addPost (branchMap : gmap string Branch)
    (post : Post) (index : nat) (st : State) : State :=
  let primaryTag := firstTag post in
  let branchId :=
    match primaryTag with
    | Some t => if truthy t then slug t else "main"
    | None => "main"
    end in
  let branch := branchMap !! branchId in
  let y := row_y index in
  let onMain (st : State) :=
    push_node (Commit {|
      commit_id := "commit-main-" +:+ post_slug post;
      commit_branch := "main";
      commit_slug := post_slug post;
      commit_title := post_title post;
      commit_summary := post_summary post;
      commit_date := post_date post;
      commit_x := MAIN_X L;
      commit_y := y;
      data_testid := "git-commit-node";
      data_slug := post_slug post;
      data_branch := "main" |}) st in
  match primaryTag, branch with
  | Some t, Some b =>
      if truthy t then
        let commitId := "commit-" +:+ branchId +:+ "-" +:+ post_slug post in
        let mergeId := "merge-" +:+ post_slug post in
        let st := push_node (Commit {|
          commit_id := commitId;
          commit_branch := branchId;
          commit_slug := post_slug post;
          commit_title := post_title post;
          commit_summary := post_summary post;
          commit_date := post_date post;
          commit_x := branch_x b;
          commit_y := y;
          data_testid := "git-commit-node";
          data_slug := post_slug post;
          data_branch := branchId |}) st in
        let st := push_node (Merge {|
          merge_id := mergeId;
          merge_slug := post_slug post;
          merge_date := post_date post;
          merge_x := MAIN_X L;
          merge_y := y |}) st in
        push_edge {|
          edge_id := "edge-" +:+ commitId +:+ "-" +:+ mergeId;
          edge_from := commitId;
          edge_to := mergeId;
          edge_type := merge_connector |} st
      else onMain st
  | _, _ => onMain st
  end.

(** The callback of the second [publishedPosts.forEach]: the month and
    year separators. [lastYear] and [lastMonth] are [null] only before the
    first record. *)
Definition addSeparators (post : Post) (index : nat) (st : State) : State :=
  let year_ := getFullYear (post_date post) in
  let month_ := getMonth (post_date post) in
  let y := row_y index in
  let st :=
    if (0 <? index)%nat then
      let st :=
        match lastYear st with
        | Some ly =>
            if bool_decide (year_ ≠ ly) then
              push_node (Separator {|
                separator_id := "separator-year-" +:+ pretty year_;
                separator_label := pretty year_;
                separator_kind := year;
                separator_x := 0;
                separator_y := (y - ROW_HEIGHT L / 2)%Q |}) st
            else st
        | None => st
        end in
      match lastMonth st with
      | Some lm =>
          if bool_decide (month_ ≠ lm) && bool_decide (Some year_ = lastYear st)
          then
            push_node (Separator {|
              separator_id :=
                "separator-month-" +:+ pretty year_ +:+ "-" +:+ pretty month_;
              separator_label :=
                default "undefined" (monthNames !! month_)
                +:+ " " +:+ pretty year_;
              separator_kind := month;
              separator_x := 0;
              separator_y := (y - ROW_HEIGHT L / 2)%Q |}) st
          else st
      | None => st
      end
    else st in
  set_last year_ month_ st.

(** The [for] loop that looks for the first post dated on or before
    today; [None] is the [null] left in [todayY] when the loop ends
    without a [break]. *)
Fixpoint findTodayY (now : Clock) (i : nat) (pub : list Post) : option Q :=
  match pub with
  | [] => None
  | p :: rest =>
      if (startOfDay (post_date p) <=? today_time now)%Z
      then Some (row_y i)
      else findTodayY now (S i) rest
  end.

Definition computeTodayY (now : Clock) (pub : list Post) : option Q :=
  match pub with
  | newestPost :: _ =>
      if (startOfDay (post_date newestPost) <? today_time now)%Z
      then findTodayY now 0 pub
      else Some (PADDING_TOP L)
  | [] => Some (PADDING_TOP L)
  end.

(** [if (todayY !== null && todayY > 0)]. *)
Definition addToday (now : Clock) (todayY : option Q) (st : State) : State :=
  match todayY with
  | Some ty =>
      if Qlt_le_dec 0 ty then
        push_node (Today {|
          today_id := "today-marker";
          today_date := today_iso now;
          today_x := 0;
          today_y := ty |}) st
      else st
  | None => st
  end.

(** The function, with the layout constants and the clock as arguments. *)
Definition mapPostsToGraphWith (now : Clock) (posts : list Post) : GraphModel :=
  let pub := publishedPosts posts in
  let tags := sortedTags pub in
  let branches := makeBranches tags in
  let branchMap := Map_of_branches branches in
  let st := forEach (addPost branchMap) pub init_state in
  let st := forEach addSeparators pub st in
  let st := addToday now (computeTodayY now pub) st in
  {| branches := branches; nodes := st_nodes st; edges := st_edges st |}.

End WithConstants.

(** The function of the source: the layout constants are the module's
    [LAYOUT_CONSTANTS]. *)
Definition mapPostsToGraph (now : Clock) (posts : list Post) : GraphModel :=
  mapPostsToGraphWith LAYOUT_CONSTANTS now posts.

End GitGraphModel.

(** ** A concrete runtime

    The built-ins read on ASCII text and on [YYYY-MM-DD] dates, for a
    process whose time zone is UTC; [localeCompare] is the order of the
    code units and [slug] keeps ASCII letters only. The theorems are
    stated for any [Runtime]; this one serves the concrete runs at the end
    of the file. *)

Module Js.

Definition code (c : ascii) : nat := nat_of_ascii c.

Definition lower (c : ascii) : ascii :=
  if (65 <=? code c)%nat && (code c <=? 90)%nat
  then ascii_of_nat (code c + 32) else c.

Fixpoint toLowerCase (s : string) : string :=
  match s with
  | "" => ""
  | String c r => String (lower c) (toLowerCase r)
  end.

(** The characters github-slugger keeps: letters, digits, the hyphen,
    the underscore and the space. *)
Definition kept (c : ascii) : bool :=
  let n := code c in
  (n =? 32)%nat || (n =? 45)%nat || (n =? 95)%nat
  || ((48 <=? n)%nat && (n <=? 57)%nat)
  || ((65 <=? n)%nat && (n <=? 90)%nat)
  || ((97 <=? n)%nat && (n <=? 122)%nat).

(** [value.replace(regex, '').replace(/ /g, '-')]. *)
Fixpoint strip (s : string) : string :=
  match s with
  | "" => ""
  | String c r =>
      if kept c
      then String (if (code c =? 32)%nat then "-"%char else c) (strip r)
      else strip r
  end.

Definition slug (s : string) : string := strip (toLowerCase s).

(** Code-unit order, as a negative, zero or positive number. *)
Definition localeCompare (a b : string) : Z :=
  match String.compare a b with
  | Lt => (-1)%Z
  | Eq => 0%Z
  | Gt => 1%Z
  end.

Fixpoint digits (acc : Z) (s : string) : Z :=
  match s with
  | "" => acc
  | String c r => digits (10 * acc + (Z.of_nat (code c) - 48))%Z r
  end.

Definition field (start len : nat) (s : string) : Z :=
  digits 0 (substring start len s).

Definition getFullYear (s : string) : Z := field 0 4 s.
Definition getMonth (s : string) : nat := Z.to_nat (field 5 2 s - 1).

(** Days between 1970-01-01 and the civil date [y]-[m]-[d]. *)
Definition daysFromCivil (y m d : Z) : Z :=
  (let y' := if m <=? 2 then y - 1 else y in
   let era := y' / 400 in
   let yoe := y' - era * 400 in
   let doy := (153 * (if 2 <? m then m - 3 else m + 9) + 2) / 5 + d - 1 in
   let doe := yoe * 365 + yoe / 4 - yoe / 100 + doy in
   era * 146097 + doe - 719468)%Z.

Definition startOfDay (s : string) : Z :=
  (daysFromCivil (field 0 4 s) (field 5 2 s) (field 8 2 s) * 86400000)%Z.

Definition runtime : Runtime :=
  Build_Runtime slug toLowerCase localeCompare getFullYear getMonth startOfDay.

(** The clock of a run on the given day. *)
Definition clock (day : string) : Clock :=
  {| today_time := startOfDay day; today_iso := day |}.

Definition post (slug_ date_ : string) (tags_ : list string) : Post :=
  {| post_slug := slug_; post_title := slug_; post_summary := None;
     post_date := date_; post_tags := Some tags_; post_draft := None |}.

(** Sample inputs. [timeline] is the scenario of the specification: three
    published posts, newest first, across a month and a year boundary,
    followed by a draft. *)
Definition today0 : Clock := clock "2025-01-01".

Definition timeline : list Post :=
  [ post "p1" "2024-12-20" ["zebra"];
    post "p2" "2024-11-15" ["Apple"];
    post "p3" "2023-11-01" [];
    {| post_slug := "p4"; post_title := "p4"; post_summary := None;
       post_date := "2023-10-01"; post_tags := Some ["mango"];
       post_draft := Some true |} ].

(** A post whose tag has the slug of the main branch. *)
Definition taggedMain : list Post := [ post "p" "2024-01-01" ["main"] ].

(** Two posts with distinct slugs and distinct tags whose commit ids
    coincide: ["a"] with slug ["b-c"], and ["a b"] with slug ["c"]. *)
Definition hyphenated : list Post :=
  [ post "b-c" "2024-01-02" ["a"]; post "c" "2024-01-01" ["a b"] ].

(** Two tagged posts with the same slug. *)
Definition sameSlug : list Post :=
  [ post "x" "2024-01-02" ["a"]; post "x" "2024-01-01" ["b"] ].

(** The default layout with the top padding set to zero. *)
Definition flushTop : LayoutConstants :=
  {| ROW_HEIGHT := 48; PADDING_TOP := 0; PADDING_BOTTOM := 24;
     MAIN_X := 150; BRANCH_SPACING := 80; LABEL_WIDTH := 100 |}.

(** A layout with other positive constants. *)
Definition compact : LayoutConstants :=
  {| ROW_HEIGHT := 30; PADDING_TOP := 10; PADDING_BOTTOM := 10;
     MAIN_X := 120; BRANCH_SPACING := 40; LABEL_WIDTH := 60 |}.

(** Two posts whose tags pass the category check. *)
Definition categorised : list Post :=
  [ post "run" "2024-02-01" ["fitness"]; post "rocq" "2024-01-01" ["technology"] ].

(** Posts as the home page gets them: the tag of the first is a category
    up to case. *)
Definition tagged : list Post :=
  [ post "walk" "2024-03-01" ["Life"]; post "run" "2024-02-01" ["fitness"];
    post "misc" "2024-01-01" ["life"; "fitness"] ].

(** A summary of more than 80 characters, with white space around it. *)
Definition longSummary : string :=
  "  A walk through the layout of the commit graph: rows, rails, separators and the marker of today.  ".

End Js.

(** ** Declarative readings of the passes

    What the claims are stated against: the nodes one callback run appends,
    the separators as the specification words them, and the preconditions
    on the input that some properties need. *)

(** [g i a] for every element [a] at index [i], in order, counting from
    [index]. *)
Fixpoint flat_mapi {A B : Type} (g : nat → A → list B) (index : nat) (l : list A)
  : list B :=
  match l with
  | [] => []
  | a :: l' => g index a ++ flat_mapi g (S index) l'
  end.

Definition hyphen : ascii := "-"%char.

(** No hyphen occurs in the string. *)
Fixpoint no_hyphen (s : string) : bool :=
  match s with
  | "" => true
  | String c r => negb (Ascii.eqb c hyphen) && no_hyphen r
  end.

Section Readings.

Context `{Runtime}.
Variable L : LayoutConstants.

(** The nodes and edges one run of [addPost] appends. *)
Definition postNodes (branchMap : gmap string Branch) (index : nat) (post : Post)
  : list GraphNode :=
  st_nodes (addPost L branchMap post index init_state).

Definition postEdges (branchMap : gmap string Branch) (index : nat) (post : Post)
  : list Edge :=
  st_edges (addPost L branchMap post index init_state).

(** The record has a primary tag that puts it on a lane of its own. *)
Definition laneTag (post : Post) : option string :=
  match firstTag post with
  | Some t => if truthy t then Some t else None
  | None => None
  end.

(** The branch id of the record's commit, and the ids of the nodes and
    of the edge made for it. *)
Definition branchOf (post : Post) : string :=
  match laneTag post with
  | Some t => slug t
  | None => "main"
  end.

Definition commitIdOf (post : Post) : string :=
  "commit-" +:+ branchOf post +:+ "-" +:+ post_slug post.

Definition mergeIdOf (post : Post) : string :=
  "merge-" +:+ post_slug post.

(** The merge node paired with the commit of a record on a lane. *)
Definition mergeOf (index : nat) (post : Post) : MergeNode :=
  {| merge_id := mergeIdOf post;
     merge_slug := post_slug post;
     merge_date := post_date post;
     merge_x := MAIN_X L;
     merge_y := row_y L index |}.

Definition connectorOf (post : Post) : Edge :=
  {| edge_id := "edge-" +:+ commitIdOf post +:+ "-" +:+ mergeIdOf post;
     edge_from := commitIdOf post;
     edge_to := mergeIdOf post;
     edge_type := merge_connector |}.

(** What identifies the commit of the record at [index]. *)
Definition commitFacts (index : nat) (post : Post) (c : CommitNode) : Prop :=
  commit_id c = commitIdOf post
  ∧ commit_branch c = branchOf post
  ∧ commit_slug c = post_slug post
  ∧ commit_title c = post_title post
  ∧ commit_summary c = post_summary post
  ∧ commit_date c = post_date post
  ∧ commit_y c = row_y L index.

(** The merge nodes, the edges and the node ids the first pass makes
    for a record. *)
Definition mergesOf (index : nat) (post : Post) : list MergeNode :=
  match laneTag post with
  | Some _ => [mergeOf index post]
  | None => []
  end.

Definition edgesOf (post : Post) : list Edge :=
  match laneTag post with
  | Some _ => [connectorOf post]
  | None => []
  end.

Definition idsOf (post : Post) : list string :=
  commitIdOf post :: match laneTag post with
                     | Some _ => [mergeIdOf post]
                     | None => []
                     end.

Definition MonthAbbrev (m : nat) : string :=
  default "undefined" (monthNames !! m).

(** The separator between two adjacent records, in the words of the
    specification: a year separator labelled with the new year when the
    years differ, else a month separator when the months differ, half a
    row above the current record. *)
Definition separatorBetween (prev cur : Post) (current_record_y : Q)
  : option SeparatorNode :=
  let y := (current_record_y - ROW_HEIGHT L / 2)%Q in
  let year_ := getFullYear (post_date cur) in
  let month_ := getMonth (post_date cur) in
  if bool_decide (year_ ≠ getFullYear (post_date prev)) then
    Some {| separator_id := "separator-year-" +:+ pretty year_;
            separator_label := pretty year_;
            separator_kind := year;
            separator_x := 0;
            separator_y := y |}
  else if bool_decide (month_ ≠ getMonth (post_date prev)) then
    Some {| separator_id :=
              "separator-month-" +:+ pretty year_ +:+ "-" +:+ pretty month_;
            separator_label := MonthAbbrev month_ +:+ " " +:+ pretty year_;
            separator_kind := month;
            separator_x := 0;
            separator_y := y |}
  else None.

Fixpoint separatorsAfter (prev : Post) (index : nat) (rest : list Post)
  : list SeparatorNode :=
  match rest with
  | [] => []
  | cur :: rest' =>
      option_list (separatorBetween prev cur (row_y L index))
      ++ separatorsAfter cur (S index) rest'
  end.

Definition expectedSeparators (pub : list Post) : list SeparatorNode :=
  match pub with
  | [] => []
  | first :: rest => separatorsAfter first 1 rest
  end.

(** The nodes [addToday] appends. *)
Definition todayNodes (now : Clock) (todayY : option Q) : list GraphNode :=
  st_nodes (addToday now todayY init_state).

(** The lookup table of the branches built for the published records. *)
Definition branchMapOf (pub : list Post) : gmap string Branch :=
  Map_of_branches (makeBranches L (sortedTags pub)).

(** The merge nodes paired with a commit: those sharing its [y] and its
    slug. *)
Definition pairedMerges (c : CommitNode) (ns : list GraphNode) : list MergeNode :=
  List.filter (λ m, Qeq_bool (merge_y m) (commit_y c)
                    && String.eqb (merge_slug m) (commit_slug c))
              (merges ns).

(** The Today node at height [y], if the guard [todayY > 0] lets it
    through. *)
Definition markerAt (now : Clock) (y : Q) : list TodayNode :=
  if Qlt_le_dec 0 y
  then [{| today_id := "today-marker"; today_date := today_iso now;
           today_x := 0; today_y := y |}]
  else [].

(** No first tag of a published record has the slug of the reserved main
    branch. *)
Definition noMainTag (pub : list Post) : Prop :=
  ∀ p t, p ∈ pub → firstTag p = Some t → slug t ≠ "main".

(** No published record is put on a lane whose id is that of the main
    branch. *)
Definition noMainLane (pub : list Post) : Prop :=
  ∀ p t, p ∈ pub → laneTag p = Some t → slug t ≠ "main".

(** Every lane id is free of hyphens. *)
Definition hyphenFreeLanes (pub : list Post) : Prop :=
  ∀ p t, p ∈ pub → laneTag p = Some t → no_hyphen (slug t) = true.

(** A record is not newer than another, as far as the separator pass can
    tell: its calendar year and month are not later. *)
Definition notNewer (p q : Post) : Prop :=
  (getFullYear (post_date q) < getFullYear (post_date p))%Z
  ∨ (getFullYear (post_date q) = getFullYear (post_date p)
     ∧ (getMonth (post_date q) ≤ getMonth (post_date p))%nat).

(** A separator id made for a record strictly older, by calendar year
    and month, than the year [y0] and month [m0]. *)
Definition olderSeparatorId (y0 : Z) (m0 : nat) (id : string) : Prop :=
  (∃ y : Z, id = "separator-year-" +:+ pretty y ∧ (y < y0)%Z)
  ∨ (∃ (y : Z) (m : nat),
       id = "separator-month-" +:+ pretty y +:+ "-" +:+ pretty m
       ∧ ((y < y0)%Z ∨ (y = y0 ∧ (m < m0)%nat))).

(** Newest first: every record is followed only by records that are not
    newer. *)
Definition newestFirst (posts : list Post) : Prop :=
  StronglySorted notNewer posts.

End Readings.

(** ** More JavaScript built-ins *)

(** The double quote, for messages that contain one. *)
Definition dq : string := String (ascii_of_nat 34) "".

(** [Array.prototype.join]. *)
Fixpoint join (sep : string) (l : list string) : string :=
  match l with
  | [] => ""
  | [x] => x
  | x :: l' => x +:+ sep +:+ join sep l'
  end.

(** [Array.prototype.slice(start, end)]: a negative index counts from the
    end, and both are clamped to the array. *)
Definition Array_slice {A : Type} (start end_ : Z) (l : list A) : list A :=
  let len := Z.of_nat (length l) in
  let k := if (start <? 0)%Z then Z.max (len + start) 0 else Z.min start len in
  let final := if (end_ <? 0)%Z then Z.max (len + end_) 0 else Z.min end_ len in
  take (Z.to_nat (final - k)) (drop (Z.to_nat k) l).

(** ** JavaScript strings by code unit

    Where the code counts, cuts or scans the characters of a string, the
    string is the sequence of its UTF-16 code units, which is what
    [length], [slice], [trim] and a regular expression without the [u]
    flag work on. *)

Definition JsString : Type := list N.

(** The code units of a literal of the source; every literal of the
    source that is written this way is ASCII. *)
Definition units (s : string) : JsString :=
  N_of_ascii <$> list_ascii_of_string s.

(** A string is truthy when it is not empty. *)
Definition nonEmpty (s : JsString) : bool :=
  match s with [] => false | _ => true end.

(** The line terminators: LF, CR, LS and PS. *)
Definition isLineTerminator (c : N) : bool :=
  (c =? 10)%N || (c =? 13)%N || (c =? 8232)%N || (c =? 8233)%N.

(** The white space of [trim] and of [\s]: TAB, VT, FF, SP, NBSP, ZWNBSP,
    the space separators U+1680, U+2000 to U+200A, U+202F, U+205F and
    U+3000, and the line terminators. *)
Definition isWhiteSpace (c : N) : bool :=
  (c =? 9)%N || (c =? 11)%N || (c =? 12)%N || (c =? 32)%N || (c =? 160)%N
  || (c =? 65279)%N || (c =? 5760)%N || ((8192 <=? c)%N && (c <=? 8202)%N)
  || (c =? 8239)%N || (c =? 8287)%N || (c =? 12288)%N
  || isLineTerminator c.

(** [String.prototype.trimStart], [trimEnd] and [trim]. *)
Fixpoint trimStart (s : JsString) : JsString :=
  match s with
  | [] => []
  | c :: r => if isWhiteSpace c then trimStart r else s
  end.

Fixpoint trimEnd (s : JsString) : JsString :=
  match s with
  | [] => []
  | c :: r =>
      match trimEnd r with
      | [] => if isWhiteSpace c then [] else [c]
      | r' => c :: r'
      end
  end.

Definition trim (s : JsString) : JsString := trimEnd (trimStart s).

(** [String.prototype.endsWith]. *)
Definition endsWith (searchString s : JsString) : bool :=
  bool_decide (searchString `suffix_of` s).

(** [Array.prototype.join] on strings given by code unit. *)
Fixpoint joinUnits (sep : JsString) (l : list JsString) : JsString :=
  match l with
  | [] => []
  | [x] => x
  | x :: l' => x ++ sep ++ joinUnits sep l'
  end.

(** ** Regular expressions

    The backtracking matcher of the language, for the constructs the
    source uses: literal characters, a character class, a class under [*],
    [*?], [+] and [?], the assertions [^] and [$], one capturing group and
    concatenation. A continuation gets the code unit before the current
    position, the position, the rest of the input and the capture; the
    first alternative that lets the continuation succeed is the match. *)

Module RegExp.

Inductive Pattern :=
| Chars (s : JsString)
| Class (set : N → bool)
| Star (set : N → bool)
| StarLazy (set : N → bool)
| Plus (set : N → bool)
| Opt (set : N → bool)
| Bol
| Eol
| Group (p : Pattern)
| Seq (p q : Pattern).

(** The end of the match and the capture of group 1. *)
Definition Result : Type := nat * JsString.

Definition Cont : Type := option N → nat → JsString → JsString → option Result.

Fixpoint chars (s : JsString) (k : Cont) (prev : option N) (i : nat)
    (rest capture : JsString) {struct s} : option Result :=
  match s with
  | [] => k prev i rest capture
  | c :: s' =>
      match rest with
      | d :: rest' =>
          if (c =? d)%N then chars s' k (Some d) (S i) rest' capture else None
      | [] => None
      end
  end.

(** [set*] (greedy: as many as possible first) and [set*?] (as few as
    possible first). *)
Fixpoint star (greedy : bool) (set : N → bool) (k : Cont) (prev : option N)
    (i : nat) (rest capture : JsString) {struct rest} : option Result :=
  match rest with
  | c :: rest' =>
      if greedy then
        if set c then
          match star greedy set k (Some c) (S i) rest' capture with
          | Some r => Some r
          | None => k prev i rest capture
          end
        else k prev i rest capture
      else
        match k prev i rest capture with
        | Some r => Some r
        | None =>
            if set c then star greedy set k (Some c) (S i) rest' capture
            else None
        end
  | [] => k prev i rest capture
  end.

Fixpoint run (multiline : bool) (p : Pattern) (k : Cont) (prev : option N)
    (i : nat) (rest capture : JsString) {struct p} : option Result :=
  match p with
  | Chars s => chars s k prev i rest capture
  | Class set =>
      match rest with
      | c :: rest' => if set c then k (Some c) (S i) rest' capture else None
      | [] => None
      end
  | Star set => star true set k prev i rest capture
  | StarLazy set => star false set k prev i rest capture
  | Plus set =>
      match rest with
      | c :: rest' =>
          if set c then star true set k (Some c) (S i) rest' capture else None
      | [] => None
      end
  | Opt set =>
      match rest with
      | c :: rest' =>
          if set c then
            match k (Some c) (S i) rest' capture with
            | Some r => Some r
            | None => k prev i rest capture
            end
          else k prev i rest capture
      | [] => k prev i rest capture
      end
  | Bol =>
      match prev with
      | None => k prev i rest capture
      | Some c =>
          if multiline && isLineTerminator c then k prev i rest capture
          else None
      end
  | Eol =>
      match rest with
      | [] => k prev i rest capture
      | c :: _ =>
          if multiline && isLineTerminator c then k prev i rest capture
          else None
      end
  | Group q =>
      run multiline q
          (λ prev' i' rest' _, k prev' i' rest' (take (i' - i) rest))
          prev i rest capture
  | Seq q1 q2 => run multiline q1 (run multiline q2 k) prev i rest capture
  end.

(** The match that starts at the current position, if any. *)
Definition matchHere (multiline : bool) (p : Pattern) (prev : option N)
    (i : nat) (rest : JsString) : option Result :=
  run multiline p (λ _ j _ capture, Some (j, capture)) prev i rest [].

(** [str.match(regexp)] for a regular expression without the [g] flag:
    the leftmost match, as the matched text and the capture of group 1;
    [None] is [null]. *)
Fixpoint exec (multiline : bool) (p : Pattern) (prev : option N) (i : nat)
    (rest : JsString) {struct rest} : option (JsString * JsString) :=
  match matchHere multiline p prev i rest with
  | Some (j, capture) => Some (take (j - i) rest, capture)
  | None =>
      match rest with
      | c :: rest' => exec multiline p (Some c) (S i) rest'
      | [] => None
      end
  end.

Definition String_match (multiline : bool) (p : Pattern) (s : JsString)
  : option (JsString * JsString) :=
  exec multiline p None 0 s.

(** The matches of a regular expression with the [g] flag, from left to
    right: the search goes on where the last match ended, one code unit
    further after an empty match. [skip] counts the code units of the last
    match that are still to be passed. *)
Fixpoint scan (multiline : bool) (p : Pattern) (skip : nat) (prev : option N)
    (i : nat) (rest : JsString) {struct rest} : list JsString :=
  match skip with
  | S skip' =>
      match rest with
      | c :: rest' => scan multiline p skip' (Some c) (S i) rest'
      | [] => []
      end
  | O =>
      match matchHere multiline p prev i rest with
      | Some (j, _) =>
          take (j - i) rest
          :: match rest with
             | c :: rest' => scan multiline p (j - i - 1) (Some c) (S i) rest'
             | [] => []
             end
      | None =>
          match rest with
          | c :: rest' => scan multiline p 0 (Some c) (S i) rest'
          | [] => []
          end
      end
  end.

(** [str.match(regexp)] for a regular expression with the [g] flag: the
    matched texts, or [null] when there is none. *)
Definition String_matchAll (multiline : bool) (p : Pattern) (s : JsString)
  : option (list JsString) :=
  match scan multiline p 0 None 0 s with
  | [] => None
  | matches => Some matches
  end.

(** [str.replace(/[set]/g, '')]: every code unit of the class is
    removed. *)
Definition String_remove (set : N → bool) (s : JsString) : JsString :=
  List.filter (λ c, negb (set c)) s.

End RegExp.

(** A JavaScript number that may be infinite, and [Math.min] and
    [Math.max] on such numbers. *)
Inductive Num := Finite (q : Q) | Infinity | NegInfinity.

Definition Math_min (a b : Num) : Num :=
  match a, b with
  | NegInfinity, _ | _, NegInfinity => NegInfinity
  | Infinity, x | x, Infinity => x
  | Finite x, Finite y => Finite (if Qle_bool x y then x else y)
  end.

Definition Math_max (a b : Num) : Num :=
  match a, b with
  | Infinity, _ | _, Infinity => Infinity
  | NegInfinity, x | x, NegInfinity => x
  | Finite x, Finite y => Finite (if Qle_bool x y then y else x)
  end.

(** ** Categories (lib/categories.ts) *)

Module Categories.

Definition ALLOWED_CATEGORIES : list string :=
  [ "technology"; "fitness"; "life"; "others" ].

(** [console.warn(message)] when [process.env.NODE_ENV === 'development']:
    the messages written, in order. *)
Definition warn (development : bool) (message : string) : list string :=
  if development then [message] else [].

Section WithRuntime.

Context `{Runtime}.

(** The category of a post and the warnings written on the way.
    [development] is [process.env.NODE_ENV === 'development']; an
    undefined [tags] is [None]. *)
Definition getPostCategory (development : bool) (tags : option (list string))
  : string * list string :=
  match tags with
  | None | Some [] =>
      ("others",
       warn development
         ("getPostCategory: No tags provided, defaulting to "
          +:+ dq +:+ "others" +:+ dq))
  | Some (first :: rest) =>
      if (1 <? length (first :: rest))%nat then
        ("others",
         warn development
           ("getPostCategory: Multiple tags provided ["
            +:+ join ", " (first :: rest) +:+ "], defaulting to "
            +:+ dq +:+ "others" +:+ dq))
      else
        let tag := toLowerCase first in
        if bool_decide (tag ∈ ALLOWED_CATEGORIES) then (tag, [])
        else
          ("others",
           warn development
             ("getPostCategory: Tag " +:+ dq +:+ first +:+ dq
              +:+ " is not an allowed category ["
              +:+ join ", " ALLOWED_CATEGORIES +:+ "], defaulting to "
              +:+ dq +:+ "others" +:+ dq))
  end.

End WithRuntime.

End Categories.

(** ** The home page (app/Main.tsx) *)

Module Home.

Definition POSTS_PER_PAGE : Z := 5.

Definition ALL_CATEGORIES : list string := Categories.ALLOWED_CATEGORIES.

(** [rawTag && ALL_CATEGORIES.includes(rawTag) ? rawTag : null], for the
    [rawTag] read from the query string ([null] is [None]). *)
Definition activeTag (rawTag : option string) : option string :=
  match rawTag with
  | Some t =>
      if truthy t && bool_decide (t ∈ ALL_CATEGORIES) then Some t else None
  | None => None
  end.

(** [rawPage ? Number.parseInt(rawPage, 10) : 1]; [parseInt] is
    [Number.parseInt(_, 10)], whose [NaN] is [None]. *)
Definition parsedPage (parseInt : string → option Z) (rawPage : option string)
  : option Z :=
  match rawPage with
  | Some r => if truthy r then parseInt r else Some 1%Z
  | None => Some 1%Z
  end.

Section WithRuntime.

Context `{Runtime}.

Definition filteredPosts (development : bool) (posts : list Post)
    (activeTag : option string) : list Post :=
  match activeTag with
  | None => posts
  | Some tag =>
      List.filter
        (λ post, String.eqb
                   (Categories.getPostCategory development (post_tags post)).1
                   tag)
        posts
  end.

End WithRuntime.

(** [Math.max(1, Math.ceil(filteredPosts.length / postsPerPage))]. *)
Definition totalPages (filteredPosts : list Post) : Z :=
  Z.max 1 (Qceiling (num (length filteredPosts) / inject_Z POSTS_PER_PAGE)).

(** [Number.isFinite(parsedPage) && parsedPage > 0
     ? Math.min(parsedPage, totalPages) : 1]. *)
Definition currentPage (parsedPage : option Z) (totalPages : Z) : Z :=
  match parsedPage with
  | Some n => if (0 <? n)%Z then Z.min n totalPages else 1%Z
  | None => 1%Z
  end.

Definition prevPage (currentPage : Z) : bool := (0 <? currentPage - 1)%Z.

Definition nextPage (currentPage totalPages : Z) : bool :=
  (currentPage + 1 <=? totalPages)%Z.

Definition displayPosts (filteredPosts : list Post) (currentPage : Z)
  : list Post :=
  let startIndex := ((currentPage - 1) * POSTS_PER_PAGE)%Z in
  Array_slice startIndex (startIndex + POSTS_PER_PAGE) filteredPosts.

(** [filteredPosts.length > postsPerPage]: the page navigation is
    rendered. *)
Definition showNav (filteredPosts : list Post) : bool :=
  (POSTS_PER_PAGE <? Z.of_nat (length filteredPosts))%Z.

(** The posts on the page requested as [parsedPage]. *)
Definition page (filteredPosts : list Post) (parsedPage : option Z) : list Post :=
  displayPosts filteredPosts (currentPage parsedPage (totalPages filteredPosts)).

End Home.

(** ** The graph component (components/GitGraph.tsx) *)

Module GitGraph.

Record CommitMeta := {
  meta_title : string;
  meta_summary : option string;
  meta_date : string
}.

Definition commitMetaBySlug (graphData : GraphModel) : gmap string CommitMeta :=
  forEach (λ node _ (map : gmap string CommitMeta),
             match node with
             | Commit c =>
                 <[commit_slug c :=
                     {| meta_title := commit_title c;
                        meta_summary := commit_summary c;
                        meta_date := commit_date c |}]> map
             | _ => map
             end) (nodes graphData) ∅.

Record Range := {
  minY : Num;
  maxY : Num
}.

(** [nodes.length > 0 ? nodes[nodes.length - 1].y || 0 : 0]. *)
Definition lastNodeY (graphData : GraphModel) : Q :=
  match last (nodes graphData) with
  | Some n => if Qeq_bool (node_y n) 0 then 0%Q else node_y n
  | None => 0%Q
  end.

Definition branchRanges (graphData : GraphModel) : gmap string Range :=
  let ranges : gmap string Range :=
    <["main" :=
        {| minY := Finite (PADDING_TOP LAYOUT_CONSTANTS);
           maxY := Finite (lastNodeY graphData
                           + PADDING_BOTTOM LAYOUT_CONSTANTS)%Q |}]> ∅ in
  forEach (λ node _ (ranges : gmap string Range),
             match node with
             | Commit c =>
                 if negb (String.eqb (commit_branch c) "main") then
                   let current :=
                     default {| minY := Infinity; maxY := NegInfinity |}
                             (ranges !! commit_branch c) in
                   <[commit_branch c :=
                       {| minY := Math_min (minY current) (Finite (commit_y c));
                          maxY := Math_max (maxY current) (Finite (commit_y c)) |}]>
                     ranges
                 else ranges
             | _ => ranges
             end) (nodes graphData) ranges.

Definition height (graphData : GraphModel) : Q :=
  (num (length (nodes graphData)) * ROW_HEIGHT LAYOUT_CONSTANTS
   + PADDING_TOP LAYOUT_CONSTANTS + PADDING_BOTTOM LAYOUT_CONSTANTS)%Q.

(** [formatSummary]; an undefined summary is [None]. *)
Definition formatSummary (summary : option JsString) : JsString :=
  let normalized :=
    match summary with
    | Some s => if nonEmpty (trim s) then trim s else []
    | None => []
    end in
  if negb (nonEmpty normalized) then units "No summary available."
  else if (length normalized <=? 80)%nat then normalized
  else trimEnd (Array_slice 0 77 normalized) ++ units "...".

End GitGraph.

(** ** The category check (scripts/validate-categories.mjs) *)

Module ValidateCategories.

Import RegExp.

Definition ALLOWED_CATEGORIES : list JsString :=
  units <$> [ "technology"; "fitness"; "life"; "others" ].

(** The character classes of the regular expressions below: [[\s\S]],
    [.], a single or double quote, the class of the characters of a tag,
    and the class of the characters removed from a matched tag (a quote or
    white space). *)
Definition anything (c : N) : bool := true.

Definition notLineTerminator (c : N) : bool := negb (isLineTerminator c).

Definition isQuote (c : N) : bool := (c =? 39)%N || (c =? 34)%N.

Definition isTagChar (c : N) : bool :=
  negb (isQuote c || (c =? 44)%N || isWhiteSpace c).

Definition isQuoteOrSpace (c : N) : bool := isQuote c || isWhiteSpace c.

(** [/^---\n([\s\S]*?)\n---/]. *)
Definition frontmatterPattern : Pattern :=
  Seq Bol
    (Seq (Chars (units "---" ++ [10%N]))
       (Seq (Group (StarLazy anything)) (Chars (10%N :: units "---")))).

(** [/^tags:\s*\[(.*?)\]$/m]. *)
Definition tagsPattern : Pattern :=
  Seq Bol
    (Seq (Chars (units "tags:"))
       (Seq (Star isWhiteSpace)
          (Seq (Chars (units "["))
             (Seq (Group (StarLazy notLineTerminator))
                (Seq (Chars (units "]")) Eol))))).

(** The pattern of one tag, used with the [g] flag: an optional quote
    (single or double), then group 1, one or more characters that are no
    quote, no comma and no white space, then an optional quote. *)
Definition tagPattern : Pattern :=
  Seq (Opt isQuote) (Seq (Group (Plus isTagChar)) (Opt isQuote)).

(** What [extractFrontmatter] returns: [null] ([None]), [{ tags: null }]
    or [{ tags: [...] }]. *)
Definition Frontmatter : Type := option (option (list JsString)).

Definition extractFrontmatter (content : JsString) : Frontmatter :=
  match String_match false frontmatterPattern content with
  | None => None
  | Some (_, frontmatterText) =>
      match String_match true tagsPattern frontmatterText with
      | None => Some None
      | Some (_, tagsGroup) =>
          let tagsContent := trim tagsGroup in
          let tagValues :=
            match String_matchAll false tagPattern tagsContent with
            | Some tagMatches =>
                forEach (λ tag _ tagValues,
                           let cleaned := String_remove isQuoteOrSpace tag in
                           if nonEmpty cleaned then tagValues ++ [cleaned]
                           else tagValues) tagMatches []
            | None => []
            end in
          Some (Some tagValues)
      end
  end.

(** [{ valid: true }] or [{ valid: false, error }]. *)
Inductive Validation := Valid | Invalid (error : JsString).

Definition is_valid (v : Validation) : bool :=
  match v with Valid => true | Invalid _ => false end.

(** [validateFile], from the base name of the file and its content as
    [readFileSync] decodes it. *)
Definition validateFile (fileName content : JsString) : Validation :=
  match extractFrontmatter content with
  | None => Invalid (fileName ++ units ": No frontmatter found")
  | Some None => Invalid (fileName ++ units ": Missing 'tags' in frontmatter")
  | Some (Some tags) =>
      if (length tags =? 0)%nat then
        Invalid (fileName ++ units ": 'tags' array is empty")
      else if (1 <? length tags)%nat then
        Invalid (fileName
                 ++ units ": 'tags' must contain exactly one value, found "
                 ++ units (pretty (length tags)) ++ units ": ["
                 ++ joinUnits (units ", ") tags ++ units "]")
      else
        let tag := default [] (tags !! 0%nat) in
        if bool_decide (tag = units "learning") then
          Invalid (fileName
                   ++ units ": 'learning' tag is no longer allowed. Use one of: "
                   ++ joinUnits (units ", ") ALLOWED_CATEGORIES)
        else if negb (bool_decide (tag ∈ ALLOWED_CATEGORIES)) then
          Invalid (fileName ++ units ": Invalid tag '" ++ tag
                   ++ units "'. Must be one of: "
                   ++ joinUnits (units ", ") ALLOWED_CATEGORIES)
        else Valid
  end.

(** The errors [main] collects over the [.mdx] files of the directory,
    each given by its name and its content. *)
Definition collectErrors (entries : list (JsString * JsString)) : list JsString :=
  let files := List.filter (λ f, endsWith (units ".mdx") f.1) entries in
  forEach (λ file _ errors,
             match validateFile file.1 file.2 with
             | Invalid error => errors ++ [error]
             | Valid => errors
             end) files [].

(** The exit code of [main]: 1 when the directory is missing or a file is
    rejected, 0 otherwise (also when there is no [.mdx] file). *)
Definition main (dirExists : bool) (entries : list (JsString * JsString)) : Z :=
  if negb dirExists then 1%Z
  else
    let files := List.filter (λ f, endsWith (units ".mdx") f.1) entries in
    if (length files =? 0)%nat then 0%Z
    else if (0 <? length (collectErrors entries))%nat then 1%Z
    else 0%Z.

End ValidateCategories.

(** Sample files. [fileTagged] is a file whose front matter is one line,
    the flow list of one bare tag; [blockFile] lists its tag in block
    style; in [blankTagFile] the list is a quoted blank followed by
    [life]. *)
Definition fileTagged (tag : string) : JsString :=
  units "---" ++ [10%N] ++ units "tags: [" ++ units tag ++ units "]" ++ [10%N]
  ++ units "---" ++ [10%N] ++ units "Text.".

Definition blockFile : JsString :=
  units "---" ++ [10%N] ++ units "tags:" ++ [10%N] ++ units "  - fitness"
  ++ [10%N] ++ units "---" ++ [10%N].

Definition blankTagFile : JsString :=
  units "---" ++ [10%N] ++ units "tags: [" ++ [34%N; 32%N; 34%N]
  ++ units ", life]" ++ [10%N] ++ units "---" ++ [10%N].

(** ** Readings for the further properties *)

(** The record has a lane of its own. *)
Definition onLane (post : Post) : bool :=
  match laneTag post with Some _ => true | None => false end.

(** The Today node of a run under the default constants. *)
Definition todayMarker (now : Clock) : TodayNode :=
  {| today_id := "today-marker"; today_date := today_iso now;
     today_x := 0; today_y := 24 |}.

(** The commits of the result that lie on the branch [k], in order. *)
Definition commitsOn (k : string) (ns : list GraphNode) : list CommitNode :=
  List.filter (λ c, String.eqb (commit_branch c) k) (commits ns).

(** The range of a rail after one more commit at height [y]: the update
    [branchRanges] makes. *)
Definition widen (current : option GitGraph.Range) (y : Q)
  : option GitGraph.Range :=
  let current :=
    default {| GitGraph.minY := Infinity; GitGraph.maxY := NegInfinity |} current in
  Some {| GitGraph.minY := Math_min (GitGraph.minY current) (Finite y);
          GitGraph.maxY := Math_max (GitGraph.maxY current) (Finite y) |}.

(** The tooltip data of a commit, and of a post. *)
Definition commitMeta (c : CommitNode) : GitGraph.CommitMeta :=
  {| GitGraph.meta_title := commit_title c;
     GitGraph.meta_summary := commit_summary c;
     GitGraph.meta_date := commit_date c |}.

Definition postMeta (p : Post) : GitGraph.CommitMeta :=
  {| GitGraph.meta_title := post_title p;
     GitGraph.meta_summary := post_summary p;
     GitGraph.meta_date := post_date p |}.

(** The posts with the slug [k], in order. *)
Definition withSlug (k : string) (posts : list Post) : list Post :=
  List.filter (λ p, String.eqb (post_slug p) k) posts.

(** ** The post list (layouts/ListLayout.tsx) *)

Module ListLayout.

Definition ALL_CATEGORIES : list string := Categories.ALLOWED_CATEGORIES.

(** [hay.includes(needle)]. *)
Definition includes (needle hay : string) : bool :=
  match index 0 needle hay with Some _ => true | None => false end.

(** [activeTag && ALL_CATEGORIES.includes(activeTag)], as a condition;
    [activeTag] is the [tag] of the query string as it is. *)
Definition isValidTag (activeTag : option string) : bool :=
  match activeTag with
  | Some t => truthy t && bool_decide (t ∈ ALL_CATEGORIES)
  | None => false
  end.

(** [!!searchValue || !!isValidTag]. *)
Definition isFiltering (searchValue : string) (activeTag : option string) : bool :=
  truthy searchValue || isValidTag activeTag.

(** [post.title + post.summary + post.tags?.join(' ')]: an undefined
    summary or tag list is concatenated as ["undefined"]. *)
Definition searchContent (post : Post) : string :=
  (post_title post +:+ default "undefined" (post_summary post))
  +:+ match post_tags post with
      | Some tags => join " " tags
      | None => "undefined"
      end.

(** [pagination && pagination.totalPages > 1 && !isFiltering], for the
    [totalPages] of the pagination passed in, if any. *)
Definition showPagination (pagination : option Z) (searchValue : string)
    (activeTag : option string) : bool :=
  match pagination with
  | Some totalPages => (1 <? totalPages)%Z && negb (isFiltering searchValue activeTag)
  | None => false
  end.

Section WithRuntime.

Context `{Runtime}.

Definition categoryFilteredPosts (development : bool) (posts : list Post)
    (activeTag : option string) : list Post :=
  if negb (isValidTag activeTag) then posts
  else
    List.filter
      (λ post,
         let category := (Categories.getPostCategory development (post_tags post)).1 in
         bool_decide (Some category = activeTag))
      posts.

Definition filteredBlogPosts (development : bool) (posts : list Post)
    (activeTag : option string) (searchValue : string) : list Post :=
  List.filter
    (λ post, includes (toLowerCase searchValue) (toLowerCase (searchContent post)))
    (categoryFilteredPosts development posts activeTag).

Definition displayPosts (development : bool) (posts initialDisplayPosts : list Post)
    (activeTag : option string) (searchValue : string) : list Post :=
  if (0 <? length initialDisplayPosts)%nat && negb (truthy searchValue)
     && negb (isValidTag activeTag)
  then initialDisplayPosts
  else filteredBlogPosts development posts activeTag searchValue.

End WithRuntime.

End ListLayout.

(** ** The passes, one callback run at a time *)

Section Passes.

Context `{Runtime}.
Variable L : LayoutConstants.

Lemma addPost_nodes bm p i st :
  st_nodes (addPost L bm p i st) = st_nodes st ++ postNodes L bm i p.
Proof.
  unfold postNodes, addPost.
  destruct (firstTag p) as [t|]; [|done].
  destruct (bm !! _) as [b|]; [|done].
  destruct (truthy t); [|done].
  simpl. by rewrite <- !app_assoc.
Qed.

Lemma addPost_edges bm p i st :
  st_edges (addPost L bm p i st) = st_edges st ++ postEdges L bm i p.
Proof.
  unfold postEdges, addPost.
  destruct (firstTag p) as [t|]; [|by rewrite app_nil_r].
  destruct (bm !! _) as [b|]; [|by rewrite app_nil_r].
  destruct (truthy t); [done|by rewrite app_nil_r].
Qed.

Lemma addPost_last bm p i st :
  lastYear (addPost L bm p i st) = lastYear st
  ∧ lastMonth (addPost L bm p i st) = lastMonth st.
Proof.
  unfold addPost.
  destruct (firstTag p) as [t|]; [|done].
  destruct (bm !! _) as [b|]; [|done].
  by destruct (truthy t).
Qed.

Lemma forEach_addPost bm pub i st :
  let st' := forEach_from (addPost L bm) i pub st in
  st_nodes st' = st_nodes st ++ flat_mapi (postNodes L bm) i pub
  ∧ st_edges st' = st_edges st ++ flat_mapi (postEdges L bm) i pub
  ∧ lastYear st' = lastYear st ∧ lastMonth st' = lastMonth st.
Proof.
  revert i st. induction pub as [|p pub IH]; intros i st; simpl.
  - by rewrite !app_nil_r.
  - destruct (IH (S i) (addPost L bm p i st)) as (Hn & He & Hy & Hm).
    destruct (addPost_last bm p i st) as [Hy' Hm'].
    rewrite Hn, He, Hy, Hm, addPost_nodes, addPost_edges.
    by rewrite <- !app_assoc.
Qed.

(** The separator pass. At index 0 nothing is appended; afterwards the
    two tests of the callback select the separator of the specification. *)
Lemma addSeparators_first p st :
  let st' := addSeparators L p 0 st in
  st_nodes st' = st_nodes st ∧ st_edges st' = st_edges st
  ∧ lastYear st' = Some (getFullYear (post_date p))
  ∧ lastMonth st' = Some (getMonth (post_date p)).
Proof. done. Qed.

Lemma addSeparators_next prev p i st :
  lastYear st = Some (getFullYear (post_date prev)) →
  lastMonth st = Some (getMonth (post_date prev)) →
  let st' := addSeparators L p (S i) st in
  st_nodes st' = st_nodes st
                 ++ (Separator <$> option_list (separatorBetween L prev p (row_y L (S i))))
  ∧ st_edges st' = st_edges st
  ∧ lastYear st' = Some (getFullYear (post_date p))
  ∧ lastMonth st' = Some (getMonth (post_date p)).
Proof.
  intros Hy Hm. unfold addSeparators, separatorBetween. simpl.
  rewrite Hy. case_bool_decide as Hyear; simpl.
  - rewrite Hm, Hy.
    rewrite (bool_decide_eq_false_2 (Some _ = Some _)) by congruence.
    by rewrite andb_false_r.
  - rewrite Hm, Hy.
    rewrite (bool_decide_eq_true_2 (Some _ = Some _)) by congruence.
    rewrite andb_true_r. case_bool_decide; simpl; [done|by rewrite app_nil_r].
Qed.

Lemma forEach_addSeparators_after prev rest i st :
  lastYear st = Some (getFullYear (post_date prev)) →
  lastMonth st = Some (getMonth (post_date prev)) →
  let st' := forEach_from (addSeparators L) (S i) rest st in
  st_nodes st' = st_nodes st ++ (Separator <$> separatorsAfter L prev (S i) rest)
  ∧ st_edges st' = st_edges st.
Proof.
  revert prev i st. induction rest as [|cur rest IH]; intros prev i st Hy Hm; simpl.
  - by rewrite app_nil_r.
  - destruct (addSeparators_next prev cur i st Hy Hm) as (Hn & He & Hy' & Hm').
    destruct (IH cur (S i) _ Hy' Hm') as [Hn' He'].
    rewrite Hn', He', Hn, He, fmap_app. by rewrite <- app_assoc.
Qed.

Lemma forEach_addSeparators pub st :
  let st' := forEach (addSeparators L) pub st in
  st_nodes st' = st_nodes st ++ (Separator <$> expectedSeparators L pub)
  ∧ st_edges st' = st_edges st.
Proof.
  destruct pub as [|first rest]; simpl.
  - by rewrite app_nil_r.
  - unfold forEach. simpl.
    destruct (addSeparators_first first st) as (Hn & He & Hy & Hm).
    destruct (forEach_addSeparators_after first rest 0 _ Hy Hm) as [Hn' He'].
    by rewrite Hn', He'.
Qed.

Lemma addToday_nodes now ty st :
  st_nodes (addToday now ty st) = st_nodes st ++ todayNodes now ty
  ∧ st_edges (addToday now ty st) = st_edges st.
Proof.
  unfold todayNodes, addToday. destruct ty as [y|]; [|by rewrite app_nil_r].
  destruct (Qlt_le_dec 0 y); [done|by rewrite app_nil_r].
Qed.

(** The node and edge lists of the result, pass by pass. *)
Lemma mapPostsToGraphWith_nodes now posts :
  let pub := publishedPosts posts in
  nodes (mapPostsToGraphWith L now posts)
  = flat_mapi (postNodes L (branchMapOf L pub)) 0 pub
    ++ (Separator <$> expectedSeparators L pub)
    ++ todayNodes now (computeTodayY L now pub).
Proof.
  unfold mapPostsToGraphWith. cbv zeta. cbn [nodes].
  fold (branchMapOf L (publishedPosts posts)).
  set (pub := publishedPosts posts).
  destruct (addToday_nodes now (computeTodayY L now pub)
    (forEach (addSeparators L) pub
       (forEach (addPost L (branchMapOf L pub)) pub init_state))) as [-> _].
  destruct (forEach_addSeparators pub
    (forEach (addPost L (branchMapOf L pub)) pub init_state)) as [-> _].
  destruct (forEach_addPost (branchMapOf L pub) pub 0 init_state) as [Hn _].
  unfold forEach. rewrite Hn. simpl. by rewrite <- app_assoc.
Qed.

Lemma mapPostsToGraphWith_edges now posts :
  let pub := publishedPosts posts in
  edges (mapPostsToGraphWith L now posts)
  = flat_mapi (postEdges L (branchMapOf L pub)) 0 pub.
Proof.
  unfold mapPostsToGraphWith. cbv zeta. cbn [edges].
  fold (branchMapOf L (publishedPosts posts)).
  set (pub := publishedPosts posts).
  destruct (addToday_nodes now (computeTodayY L now pub)
    (forEach (addSeparators L) pub
       (forEach (addPost L (branchMapOf L pub)) pub init_state))) as [_ ->].
  destruct (forEach_addSeparators pub
    (forEach (addPost L (branchMapOf L pub)) pub init_state)) as [_ ->].
  destruct (forEach_addPost (branchMapOf L pub) pub 0 init_state) as (_ & He & _).
  unfold forEach. by rewrite He.
Qed.

End Passes.

(** ** Tags, sorting and the branch table *)

Section Branches.

Context `{Runtime}.
Variable L : LayoutConstants.

Lemma Set_add_NoDup s x : NoDup s → NoDup (Set_add s x).
Proof.
  intros Hs. unfold Set_add. case_bool_decide; [done|].
  apply NoDup_app. split_and!; [done| |apply NoDup_singleton].
  intros y Hy ->%list_elem_of_singleton. done.
Qed.

Lemma elem_of_Set_add s x y : y ∈ Set_add s x ↔ y ∈ s ∨ y = x.
Proof.
  unfold Set_add. case_bool_decide.
  - split; [auto|]. by intros [?| ->].
  - by rewrite elem_of_app, list_elem_of_singleton.
Qed.

Lemma collectTags_from i pub acc :
  NoDup acc →
  let r := forEach_from (λ post (_ : nat) tagSet,
                           match firstTag post with
                           | Some t => Set_add tagSet t
                           | None => tagSet
                           end) i pub acc in
  NoDup r ∧ ∀ t, t ∈ r ↔ t ∈ acc ∨ ∃ p, p ∈ pub ∧ firstTag p = Some t.
Proof.
  revert i acc. induction pub as [|p pub IH]; intros i acc Hacc; simpl.
  - split; [done|]. intros t. split; [auto|].
    intros [?|(p & Hp & _)]; [done|]. by apply elem_of_nil in Hp.
  - destruct (firstTag p) as [t0|] eqn:Ht0.
    + destruct (IH (S i) (Set_add acc t0) (Set_add_NoDup _ _ Hacc)) as [Hnd Hel].
      split; [done|]. intros t. rewrite Hel, elem_of_Set_add. split.
      * intros [[?| ->]|(q & Hq & Hqt)]; [by left| |].
        -- right. exists p. split; [left|done].
        -- right. exists q. split; [by right|done].
      * intros [?|(q & Hq & Hqt)]; [by left; left|].
        apply elem_of_cons in Hq as [->|Hq].
        -- left; right. congruence.
        -- right. eauto.
    + destruct (IH (S i) acc Hacc) as [Hnd Hel].
      split; [done|]. intros t. rewrite Hel. split.
      * intros [?|(q & Hq & Hqt)]; [by left|].
        right. exists q. split; [by right|done].
      * intros [?|(q & Hq & Hqt)]; [by left|].
        apply elem_of_cons in Hq as [->|Hq]; [congruence|]. right. eauto.
Qed.

(** The tag set: the distinct first tags of the published records. *)
Lemma collectTags_spec pub :
  NoDup (collectTags pub)
  ∧ ∀ t, t ∈ collectTags pub ↔ ∃ p, p ∈ pub ∧ firstTag p = Some t.
Proof.
  destruct (collectTags_from 0 pub [] (NoDup_nil_2)) as [Hnd Hel].
  split; [done|]. intros t. unfold collectTags, forEach. rewrite Hel.
  split; [|auto]. intros [Hin|?]; [|done]. by apply elem_of_nil in Hin.
Qed.

Lemma sort_insert_Permutation cmp x l : sort_insert cmp x l ≡ₚ x :: l.
Proof.
  induction l as [|y l IH]; simpl; [done|].
  destruct (cmp x y <=? 0)%Z; [done|].
  rewrite IH. apply Permutation_swap.
Qed.

Lemma Array_sort_Permutation cmp l : Array_sort cmp l ≡ₚ l.
Proof.
  induction l as [|x l IH]; simpl; [done|].
  by rewrite sort_insert_Permutation, IH.
Qed.

Lemma sort_insert_sorted cmp x l :
  (∀ a b, (0 < cmp a b)%Z → (cmp b a ≤ 0)%Z) →
  (∀ a b c, (cmp a b ≤ 0)%Z → (cmp b c ≤ 0)%Z → (cmp a c ≤ 0)%Z) →
  StronglySorted (λ a b, (cmp a b ≤ 0)%Z) l →
  StronglySorted (λ a b, (cmp a b ≤ 0)%Z) (sort_insert cmp x l).
Proof.
  intros Htot Htrans. induction 1 as [|y l Hl IH Hy]; simpl.
  - by repeat constructor.
  - destruct (Z.leb_spec (cmp x y) 0) as [Hxy|Hxy].
    + constructor; [by constructor|]. constructor; [done|].
      eapply Forall_impl; [exact Hy|]. intros z Hz. by eapply Htrans.
    + constructor; [done|]. rewrite sort_insert_Permutation.
      constructor; [by apply Htot|done].
Qed.

Lemma Array_sort_sorted cmp l :
  (∀ a b, (0 < cmp a b)%Z → (cmp b a ≤ 0)%Z) →
  (∀ a b c, (cmp a b ≤ 0)%Z → (cmp b c ≤ 0)%Z → (cmp a c ≤ 0)%Z) →
  StronglySorted (λ a b, (cmp a b ≤ 0)%Z) (Array_sort cmp l).
Proof.
  intros Htot Htrans. induction l as [|x l IH]; simpl; [constructor|].
  by apply sort_insert_sorted.
Qed.

(** The sorted tags are the distinct first tags. *)
Lemma sortedTags_spec pub :
  NoDup (sortedTags pub)
  ∧ ∀ t, t ∈ sortedTags pub ↔ ∃ p, p ∈ pub ∧ firstTag p = Some t.
Proof.
  destruct (collectTags_spec pub) as [Hnd Hel]. unfold sortedTags. split.
  - by rewrite Array_sort_Permutation.
  - intros t. by rewrite Array_sort_Permutation.
Qed.

Lemma tagBranch_names n tags :
  branch_name <$> imap (tagBranch L n) tags = tags.
Proof.
  rewrite fmap_imap. apply list_eq. intros i.
  rewrite list_lookup_imap. by destruct (tags !! i).
Qed.

Lemma makeBranches_ids tags :
  branch_id <$> makeBranches L tags = "main" :: (slug <$> tags).
Proof.
  unfold makeBranches. simpl. f_equal.
  rewrite fmap_imap. apply list_eq. intros i.
  rewrite list_lookup_imap, list_lookup_fmap. by destruct (tags !! i).
Qed.

Lemma Map_of_branches_lookup bs k :
  k ∈ branch_id <$> bs → is_Some (Map_of_branches bs !! k).
Proof.
  unfold Map_of_branches.
  assert (∀ m : gmap string Branch,
    k ∈ branch_id <$> bs ∨ is_Some (m !! k) →
    is_Some (foldl (λ m b, <[branch_id b := b]> m) m bs !! k)) as Hgen.
  { induction bs as [|b bs IH]; intros m; simpl.
    - intros [Hin|?]; [|done]. by apply elem_of_nil in Hin.
    - intros Hk. apply IH.
      destruct (decide (branch_id b = k)) as [<-|Hne].
      + right. rewrite lookup_insert_eq. eauto.
      + rewrite lookup_insert_ne by done.
        destruct Hk as [Hin|?]; [|by right].
        apply elem_of_cons in Hin as [?|?]; [congruence|by left]. }
  intros Hk. apply Hgen. by left.
Qed.

(** Every first tag of a published record has its branch in the table:
    the [branch] looked up by the callback is never [undefined]. *)
Lemma branchMapOf_lookup pub p t :
  p ∈ pub → firstTag p = Some t → is_Some (branchMapOf L pub !! slug t).
Proof.
  intros Hp Ht. apply Map_of_branches_lookup.
  rewrite makeBranches_ids. right. apply list_elem_of_fmap.
  exists t. split; [done|]. apply sortedTags_spec. eauto.
Qed.

End Branches.

(** ** The nodes and edges of one record *)

Section Records.

Context `{Runtime}.
Variable L : LayoutConstants.

(** One commit for the record, and a merge and a connector exactly when
    the record has a lane of its own. *)
Lemma addPost_emits bm i p :
  (∀ t, firstTag p = Some t → is_Some (bm !! slug t)) →
  ∃ c, commitFacts L i p c
       ∧ postNodes L bm i p
         = Commit c :: match laneTag p with
                       | Some _ => [Merge (mergeOf L i p)]
                       | None => []
                       end
       ∧ postEdges L bm i p = match laneTag p with
                              | Some _ => [connectorOf p]
                              | None => []
                              end.
Proof.
  intros Hbm.
  unfold postNodes, postEdges, addPost, commitFacts, connectorOf, mergeOf,
    commitIdOf, mergeIdOf, branchOf, laneTag.
  destruct (firstTag p) as [t|] eqn:Ht.
  - destruct (truthy t) eqn:Htr.
    + destruct (Hbm t eq_refl) as [b ->]. simpl.
      eexists. split; [|split; reflexivity]. by repeat split.
    + destruct (bm !! "main"); simpl;
        (eexists; split; [|split; reflexivity]); by repeat split.
  - simpl. eexists. split; [|split; reflexivity]. by repeat split.
Qed.

Lemma fmap_flat_mapi {A B C} (f : B → C) (g : nat → A → list B) i l :
  f <$> flat_mapi g i l = flat_mapi (λ j a, f <$> g j a) i l.
Proof.
  revert i. induction l as [|a l IH]; intros i; simpl; [done|].
  by rewrite fmap_app, IH.
Qed.

Lemma commits_Separator l : commits (Separator <$> l) = [].
Proof. by induction l. Qed.
Lemma merges_Separator l : merges (Separator <$> l) = [].
Proof. by induction l. Qed.
Lemma todays_Separator l : todays (Separator <$> l) = [].
Proof. by induction l. Qed.
Lemma separators_Separator l : separators (Separator <$> l) = l.
Proof. induction l; simpl; [done|]. by f_equal. Qed.

(** The marker pass appends nothing or one Today node. *)
Lemma todayNodes_cases now ty :
  todayNodes now ty
  = match ty with
    | Some y =>
        if Qlt_le_dec 0 y
        then [Today {| today_id := "today-marker"; today_date := today_iso now;
                       today_x := 0; today_y := y |}]
        else []
    | None => []
    end.
Proof.
  unfold todayNodes, addToday. destruct ty as [y|]; [|done].
  by destruct (Qlt_le_dec 0 y).
Qed.

Lemma todayNodes_others now ty :
  commits (todayNodes now ty) = [] ∧ merges (todayNodes now ty) = []
  ∧ separators (todayNodes now ty) = [].
Proof.
  rewrite todayNodes_cases. destruct ty as [y|]; [|done].
  by destruct (Qlt_le_dec 0 y).
Qed.

(** The first pass over any part of the published records. *)
Lemma first_pass bm i l :
  (∀ p t, p ∈ l → firstTag p = Some t → is_Some (bm !! slug t)) →
  let ns := flat_mapi (postNodes L bm) i l in
  length (commits ns) = length l
  ∧ (∀ k p, l !! k = Some p →
       ∃ c, commits ns !! k = Some c ∧ commitFacts L (i + k) p c)
  ∧ merges ns = flat_mapi (mergesOf L) i l
  ∧ separators ns = [] ∧ todays ns = []
  ∧ node_id <$> ns = flat_mapi (λ _ p, idsOf p) i l
  ∧ flat_mapi (postEdges L bm) i l = flat_mapi (λ _ p, edgesOf p) i l.
Proof.
  revert i. induction l as [|p l IH]; intros i Hbm; simpl.
  - split_and!; try done.
  - destruct (addPost_emits bm i p) as (c & Hc & Hn & He).
    { intros t. apply Hbm. by left. }
    destruct (IH (S i)) as (Hlen & Hcs & Hms & Hss & Hts & Hids & Hes).
    { intros q t Hq. apply Hbm. by right. }
    rewrite Hn, He. unfold commits, merges, separators, todays in *.
    rewrite !omap_app, fmap_app, Hms, Hss, Hts, Hids, Hes.
    unfold mergesOf, edgesOf, idsOf. destruct Hc as (Hid & Hc).
    destruct (laneTag p) as [t|] eqn:Hlane; simpl; rewrite Hlen, Hid;
      (split_and!; try done);
      (intros [|k] q Hk; simpl in *;
       [ injection Hk as <-; exists c; rewrite Nat.add_0_r;
         split; [done|exact (conj Hid Hc)]
       | rewrite Nat.add_succ_r; by apply Hcs ]).
Qed.

End Records.

(** ** Rows *)

Lemma num_lt i j : (i < j)%nat → (num i < num j)%Q.
Proof. intros Hij. unfold num. rewrite <- Zlt_Qlt. lia. Qed.

Lemma row_y_lt L i j :
  (0 < ROW_HEIGHT L)%Q → (i < j)%nat → (row_y L i < row_y L j)%Q.
Proof.
  intros HL Hij. unfold row_y.
  apply Qplus_lt_r, Qmult_lt_compat_r; [done|by apply num_lt].
Qed.

Lemma row_y_inj L i j :
  (0 < ROW_HEIGHT L)%Q → (row_y L i == row_y L j)%Q → i = j.
Proof.
  intros HL Heq.
  destruct (Nat.lt_trichotomy i j) as [Hlt|[->|Hlt]]; [|done|];
    apply (row_y_lt L) in Hlt; try done;
    rewrite Heq in Hlt; by apply Qlt_irrefl in Hlt.
Qed.

(** ** The shape of the result *)

Section Shape.

Context `{Runtime}.
Variable L : LayoutConstants.

Lemma graph_shape now posts :
  let pub := publishedPosts posts in
  let g := mapPostsToGraphWith L now posts in
  length (commits (nodes g)) = length pub
  ∧ (∀ k p, pub !! k = Some p →
       ∃ c, commits (nodes g) !! k = Some c ∧ commitFacts L k p c)
  ∧ merges (nodes g) = flat_mapi (mergesOf L) 0 pub
  ∧ separators (nodes g) = expectedSeparators L pub
  ∧ todays (nodes g) = todays (todayNodes now (computeTodayY L now pub))
  ∧ node_id <$> nodes g
    = flat_mapi (λ _ p, idsOf p) 0 pub
      ++ (separator_id <$> expectedSeparators L pub)
      ++ (node_id <$> todayNodes now (computeTodayY L now pub))
  ∧ edges g = flat_mapi (λ _ p, edgesOf p) 0 pub.
Proof.
  intros pub g.
  destruct (first_pass L (branchMapOf L pub) 0 pub)
    as (Hlen & Hcs & Hms & Hss & Hts & Hids & Hes).
  { intros p t. apply branchMapOf_lookup. }
  destruct (todayNodes_others now (computeTodayY L now pub)) as (Htc & Htm & Hts').
  unfold g. rewrite mapPostsToGraphWith_edges, mapPostsToGraphWith_nodes.
  fold pub. unfold commits, merges, separators, todays in *.
  rewrite !omap_app, !fmap_app, Htc, Htm, Hts', Hms, Hss, Hts, Hids, Hes.
  pose proof (commits_Separator (expectedSeparators L pub)) as Hsc.
  pose proof (merges_Separator (expectedSeparators L pub)) as Hsm.
  pose proof (todays_Separator (expectedSeparators L pub)) as Hst.
  pose proof (separators_Separator (expectedSeparators L pub)) as Hsep.
  unfold commits, merges, separators, todays in *.
  rewrite Hsc, Hsm, Hst, Hsep, !app_nil_r. simpl.
  rewrite <- list_fmap_compose.
  split_and!; done.
Qed.

End Shape.

(** ** Filtering the output of a pass *)

Lemma filter_none {A} (f : A → bool) (l : list A) :
  (∀ x, x ∈ l → f x = false) → List.filter f l = [].
Proof.
  induction l as [|x l IH]; intros Hf; [done|]. simpl.
  rewrite Hf by left. apply IH. intros y Hy. apply Hf. by right.
Qed.

Lemma filter_flat_mapi_at {A B} (f : B → bool) (g : nat → A → list B) i l k a :
  l !! k = Some a →
  (∀ j b, j ≠ k → l !! j = Some b → List.filter f (g (i + j)%nat b) = []) →
  List.filter f (flat_mapi g i l) = List.filter f (g (i + k)%nat a).
Proof.
  revert i k. induction l as [|x l IH]; intros i k Hk Hoff; [done|].
  simpl. rewrite List.filter_app. destruct k as [|k]; simpl in Hk.
  - injection Hk as ->. rewrite Nat.add_0_r.
    assert (List.filter f (flat_mapi g (S i) l) = []) as ->; [|by rewrite app_nil_r].
    clear IH. assert (∀ j b, l !! j = Some b →
      List.filter f (g (S i + j)%nat b) = []) as Hoff'.
    { intros j b Hj. specialize (Hoff (S j) b). rewrite Nat.add_succ_r in Hoff.
      by apply Hoff. }
    clear Hoff. revert i Hoff'. induction l as [|y l IH]; intros i Hoff'; [done|].
    simpl. rewrite List.filter_app.
    specialize (Hoff' 0%nat y eq_refl) as Hy. rewrite Nat.add_0_r in Hy.
    rewrite Hy. simpl. apply IH. intros j b Hj.
    specialize (Hoff' (S j) b Hj). by rewrite Nat.add_succ_r in Hoff'.
  - specialize (Hoff 0%nat x) as Hx. rewrite Nat.add_0_r in Hx.
    rewrite Hx by done. simpl. rewrite (IH (S i) k Hk).
    + by rewrite Nat.add_succ_r.
    + intros j b Hj Hb. specialize (Hoff (S j) b). rewrite Nat.add_succ_r in Hoff.
      apply Hoff; [lia|done].
Qed.

(** ** The marker pass *)

Section Marker.

Context `{Runtime}.
Variable L : LayoutConstants.

Lemma todays_todayNodes now ty :
  todays (todayNodes now ty)
  = match ty with Some y => markerAt now y | None => [] end.
Proof.
  rewrite todayNodes_cases. unfold markerAt. destruct ty as [y|]; [|done].
  by destruct (Qlt_le_dec 0 y).
Qed.

(** The loop stops at the first record dated on or before today. *)
Lemma findTodayY_list_find now i pub :
  findTodayY L now i pub
  = (λ ip, row_y L (i + ip.1)%nat)
      <$> list_find (λ p, (startOfDay (post_date p) ≤ today_time now)%Z) pub.
Proof.
  revert i. induction pub as [|p pub IH]; intros i; simpl; [done|].
  destruct (Z.leb_spec (startOfDay (post_date p)) (today_time now)) as [Hle|Hgt].
  - rewrite decide_True by done. simpl. by rewrite Nat.add_0_r.
  - rewrite decide_False by lia. rewrite IH.
    destruct (list_find _ pub) as [[k q]|]; simpl; [|done].
    by rewrite Nat.add_succ_r.
Qed.

Lemma separatorsAfter_length prev i rest :
  (length (separatorsAfter L prev i rest) ≤ length rest)%nat.
Proof.
  revert prev i. induction rest as [|cur rest IH]; intros prev i; simpl; [done|].
  rewrite length_app. specialize (IH cur (S i)).
  destruct (separatorBetween L prev cur (row_y L i)); simpl; lia.
Qed.

End Marker.

(** ** Membership and duplicates in the output of a pass *)

Lemma elem_of_flat_mapi {A B} (g : nat → A → list B) i l x :
  x ∈ flat_mapi g i l ↔ ∃ k a, l !! k = Some a ∧ x ∈ g (i + k)%nat a.
Proof.
  revert i. induction l as [|a l IH]; intros i; simpl.
  - split; [intros Hin; by apply elem_of_nil in Hin|]. by intros (k & b & Hk & _).
  - rewrite elem_of_app, IH. split.
    + intros [Hx|(k & b & Hk & Hx)].
      * exists 0%nat, a. by rewrite Nat.add_0_r.
      * exists (S k), b. by rewrite Nat.add_succ_r.
    + intros ([|k] & b & Hk & Hx); simpl in Hk.
      * left. injection Hk as ->. by rewrite Nat.add_0_r in Hx.
      * right. exists k, b. by rewrite Nat.add_succ_r in Hx.
Qed.

(** Records with distinct keys whose outputs can only meet on equal keys
    give an output without duplicates. *)
Lemma NoDup_flat_mapi {A B K} (key : A → K) (g : nat → A → list B) i l :
  NoDup (key <$> l) →
  (∀ j a, a ∈ l → NoDup (g j a)) →
  (∀ j j' a a' x, a ∈ l → a' ∈ l → x ∈ g j a → x ∈ g j' a' → key a = key a') →
  NoDup (flat_mapi g i l).
Proof.
  revert i. induction l as [|a l IH]; intros i Hkeys Hg Hmeet; simpl.
  - constructor.
  - rewrite fmap_cons in Hkeys. apply NoDup_cons in Hkeys as [Ha Hkeys].
    apply NoDup_app. split_and!.
    + apply Hg. left.
    + intros x Hx Hx'. apply elem_of_flat_mapi in Hx' as (k & b & Hk & Hx').
      apply Ha. apply list_elem_of_fmap. exists b. split.
      * eapply Hmeet; [left|right; by eapply list_elem_of_lookup_2|done..].
      * by eapply list_elem_of_lookup_2.
    + apply IH; [done| |].
      * intros j b Hb. apply Hg. by right.
      * intros j j' b b' x Hb Hb'. apply Hmeet; by right.
Qed.

(** ** Hyphens in ids *)

Lemma no_hyphen_app a b : no_hyphen (a +:+ b) = no_hyphen a && no_hyphen b.
Proof.
  induction a as [|c a IH]; simpl; [done|]. by rewrite IH, andb_assoc.
Qed.

(** Two strings cut at their first hyphen. *)
Lemma split_first_hyphen b1 b2 s1 s2 :
  no_hyphen b1 = true → no_hyphen b2 = true →
  b1 +:+ "-" +:+ s1 = b2 +:+ "-" +:+ s2 → b1 = b2 ∧ s1 = s2.
Proof.
  revert b2. induction b1 as [|c b1 IH]; intros [|c' b2]; simpl;
    intros H1 H2 Heq.
  - split; [done|]. by injection Heq.
  - injection Heq as <- _. unfold hyphen in H2. simpl in H2. done.
  - injection Heq as -> _. unfold hyphen in H1. simpl in H1. done.
  - injection Heq as -> Heq.
    apply andb_true_iff in H1 as [_ H1]. apply andb_true_iff in H2 as [_ H2].
    destruct (IH b2 H1 H2 Heq) as [-> ->]. done.
Qed.

(** Two strings cut at their last hyphen. *)
Lemma split_last_hyphen s1 s2 t1 t2 :
  no_hyphen t1 = true → no_hyphen t2 = true →
  s1 +:+ "-" +:+ t1 = s2 +:+ "-" +:+ t2 → s1 = s2 ∧ t1 = t2.
Proof.
  intros H1 H2. revert s2. induction s1 as [|c s1 IH]; intros [|c' s2]; simpl;
    intros Heq.
  - split; [done|]. by injection Heq.
  - injection Heq as _ Heq. change ("" +:+ t1) with t1 in Heq.
    rewrite Heq, no_hyphen_app in H1. simpl in H1.
    by rewrite andb_false_r in H1.
  - injection Heq as _ Heq. change ("" +:+ t2) with t2 in Heq.
    rewrite <- Heq, no_hyphen_app in H2. simpl in H2.
    by rewrite andb_false_r in H2.
  - injection Heq as -> Heq. destruct (IH s2 Heq) as [-> ->]. done.
Qed.

Lemma no_hyphen_pretty_N_go x s :
  no_hyphen s = true → no_hyphen (pretty_N_go x s) = true.
Proof.
  revert s. induction (N.lt_wf_0 x) as [x _ IH]; intros s Hs.
  assert (x = 0 ∨ 0 < x)%N as [->|Hx] by lia.
  - by rewrite pretty_N_go_0.
  - rewrite pretty_N_go_step by done. apply IH.
    + by apply N.div_lt.
    + simpl. rewrite Hs. unfold pretty_N_char. by repeat case_match.
Qed.

Lemma no_hyphen_pretty_nat (m : nat) : no_hyphen (pretty m) = true.
Proof.
  unfold pretty, pretty_nat, pretty, pretty_N. case_decide; [done|].
  by apply no_hyphen_pretty_N_go.
Qed.

(** ** Separator ids of a newest-first list *)

Section SeparatorIds.

Context `{Runtime}.
Variable L : LayoutConstants.

Lemma olderSeparatorId_mono prev cur id :
  notNewer prev cur →
  olderSeparatorId (getFullYear (post_date cur)) (getMonth (post_date cur)) id →
  olderSeparatorId (getFullYear (post_date prev)) (getMonth (post_date prev)) id.
Proof.
  unfold notNewer, olderSeparatorId.
  intros Hnew [(y & -> & Hy)|(y & m & -> & Hym)].
  - left. exists y. split; [done|]. lia.
  - right. exists y, m. split; [done|]. lia.
Qed.

Lemma separator_ids_NoDup prev i rest :
  StronglySorted notNewer (prev :: rest) →
  NoDup (separator_id <$> separatorsAfter L prev i rest)
  ∧ Forall (olderSeparatorId (getFullYear (post_date prev))
                             (getMonth (post_date prev)))
           (separator_id <$> separatorsAfter L prev i rest).
Proof.
  revert prev i. induction rest as [|cur rest IH]; intros prev i Hsorted; simpl.
  - split; constructor.
  - apply StronglySorted_inv in Hsorted as [Hrest Hprev].
    apply Forall_cons in Hprev as [Hcur _].
    destruct (IH cur (S i) Hrest) as [Hnd Hold].
    assert (Forall (olderSeparatorId (getFullYear (post_date prev))
                                     (getMonth (post_date prev)))
                   (separator_id <$> separatorsAfter L cur (S i) rest)) as Hold'.
    { eapply Forall_impl; [exact Hold|]. intros id. by apply olderSeparatorId_mono. }
    rewrite fmap_app. unfold separatorBetween.
    case_bool_decide as Hyear; [|case_bool_decide as Hmonth]; simpl.
    + assert (getFullYear (post_date cur) < getFullYear (post_date prev))%Z as Hlt
        by (unfold notNewer in Hcur; lia).
      split.
      * constructor; [|done]. intros Hin.
        rewrite Forall_forall in Hold. apply Hold in Hin.
        destruct Hin as [(y & Heq & Hy)|(y & m & Heq & _)].
        -- apply (inj (String.app _)), (inj pretty) in Heq. lia.
        -- simpl in Heq. discriminate Heq.
      * constructor; [|done]. left. eexists. split; [done|lia].
    + assert (getMonth (post_date cur) < getMonth (post_date prev))%nat as Hlt
        by (unfold notNewer in Hcur; lia).
      split.
      * constructor; [|done]. intros Hin.
        rewrite Forall_forall in Hold. apply Hold in Hin.
        destruct Hin as [(y & Heq & _)|(y & m & Heq & Hym)].
        -- simpl in Heq. discriminate Heq.
        -- apply (inj (String.app _)) in Heq.
           apply split_last_hyphen in Heq as [Hy Hm];
             [|apply no_hyphen_pretty_nat..].
           apply (inj pretty) in Hy. apply (inj pretty) in Hm. lia.
      * constructor; [|done]. right. eexists _, _. split; [done|]. by right.
    + done.
Qed.

End SeparatorIds.

(** ** Properties of the graph model *)

Section Properties.

Context `{Runtime}.

Local Abbreviation L0 := LAYOUT_CONSTANTS.

(** The records that survive the draft filter: those of the input whose
    draft flag is not [true], in input order. *)
Lemma elem_of_publishedPosts posts p :
  p ∈ publishedPosts posts ↔ p ∈ posts ∧ post_draft p ≠ Some true.
Proof.
  unfold publishedPosts.
  rewrite list_elem_of_In, filter_In, <- list_elem_of_In. unfold published.
  destruct (post_draft p) as [[]|]; split; intros [? ?]; done.
Qed.

Lemma sublist_publishedPosts posts : sublist (publishedPosts posts) posts.
Proof.
  unfold publishedPosts. induction posts as [|p ps IH]; simpl.
  - constructor.
  - destruct (published p); by constructor.
Qed.

(** C1. For every input list, the Commit nodes of the result are, in
    order, one per non-draft record (a record with [draft = true] is not
    among them); the Commit of the record at index [i] among the non-draft
    records carries its slug, title and date and has
    [y = PADDING_TOP + i * ROW_HEIGHT]; and [y] strictly increases with
    that index. *)
Theorem C1_one_commit_per_published_record now posts :
  let cs := commits (nodes (mapPostsToGraph now posts)) in
  let pub := publishedPosts posts in
  (∀ p, p ∈ pub ↔ p ∈ posts ∧ post_draft p ≠ Some true)
  ∧ sublist pub posts
  ∧ length cs = length pub
  ∧ (∀ i p, pub !! i = Some p →
       ∃ c, cs !! i = Some c
            ∧ commit_slug c = post_slug p
            ∧ commit_title c = post_title p
            ∧ commit_date c = post_date p
            ∧ commit_y c = (PADDING_TOP L0 + num i * ROW_HEIGHT L0)%Q)
  ∧ (∀ i j ci cj, (i < j)%nat → cs !! i = Some ci → cs !! j = Some cj →
       (commit_y ci < commit_y cj)%Q).
Proof.
  intros cs pub.
  destruct (graph_shape L0 now posts) as (Hlen & Hcs & _).
  fold pub in Hlen, Hcs. change (length cs = length pub) in Hlen.
  assert (∀ i c, cs !! i = Some c → commit_y c = row_y L0 i) as Hy.
  { intros i c Hc.
    destruct (lookup_lt_is_Some_2 pub i) as [p Hp].
    { rewrite <- Hlen. by eapply lookup_lt_Some. }
    destruct (Hcs i p Hp) as (c' & Hc' & Hf).
    assert (c' = c) as -> by (unfold cs in Hc; unfold mapPostsToGraph in Hc; congruence).
    apply Hf. }
  split_and!.
  - intros p. unfold pub, publishedPosts.
    rewrite list_elem_of_In, filter_In, <- list_elem_of_In. unfold published.
    destruct (post_draft p) as [[]|]; split; intros [? ?]; done.
  - unfold pub, publishedPosts. clear. induction posts as [|p ps IH]; simpl.
    + constructor.
    + destruct (published p); by constructor.
  - done.
  - intros i p Hp. destruct (Hcs i p Hp) as (c & Hc & Hf).
    exists c. destruct Hf as (_ & _ & ? & ? & _ & ? & ?). by repeat split.
  - intros i j ci cj Hij Hi Hj.
    rewrite (Hy i ci Hi), (Hy j cj Hj). by apply row_y_lt.
Qed.

(** The merge nodes paired with the commit of the record at index [i]. *)
Lemma pairedMerges_at L now posts i p c :
  (0 < ROW_HEIGHT L)%Q →
  publishedPosts posts !! i = Some p →
  commit_slug c = post_slug p →
  commit_y c = row_y L i →
  pairedMerges c (nodes (mapPostsToGraphWith L now posts)) = mergesOf L i p.
Proof.
  intros HL Hp Hslug Hy. unfold pairedMerges.
  destruct (graph_shape L now posts) as (_ & _ & -> & _).
  rewrite (filter_flat_mapi_at _ _ 0 _ i p Hp); simpl.
  - unfold mergesOf. destruct (laneTag p); [|done]. simpl.
    rewrite Hy, Hslug, String.eqb_refl.
    by rewrite (proj2 (Qeq_bool_iff _ _) (Qeq_refl _)).
  - intros j q Hj Hq. unfold mergesOf. destruct (laneTag q); [|done]. simpl.
    rewrite Hy. destruct (Qeq_bool (row_y L j) (row_y L i)) eqn:Hjq; [|done].
    apply Qeq_bool_iff, row_y_inj in Hjq; done.
Qed.

(** C2, as amended. The Commit of a non-draft record has exactly one paired
    Merge (same [y], same slug) when the record has a non-empty primary
    tag, and none otherwise; its branch is the slug of the tag in the first
    case and ["main"] in the second. Hence, when no non-empty primary tag
    has the slug ["main"], a Commit has a paired Merge if and only if its
    branch is not ["main"]. *)
Theorem C2_merge_iff_lane now posts :
  let ns := nodes (mapPostsToGraph now posts) in
  let pub := publishedPosts posts in
  (∀ i p, pub !! i = Some p →
     ∃ c, commits ns !! i = Some c
          ∧ commit_slug c = post_slug p
          ∧ match laneTag p with
            | Some t => commit_branch c = slug t
                        ∧ length (pairedMerges c ns) = 1%nat
            | None => commit_branch c = "main" ∧ pairedMerges c ns = []
            end)
  ∧ (noMainLane pub →
     ∀ c, c ∈ commits ns →
       (commit_branch c ≠ "main" ↔ length (pairedMerges c ns) = 1%nat)
       ∧ (commit_branch c = "main" ↔ pairedMerges c ns = [])).
Proof.
  intros ns pub.
  destruct (graph_shape L0 now posts) as (Hlen & Hcs & _).
  fold pub in Hlen, Hcs. change (nodes _) with ns in Hlen, Hcs.
  assert (∀ i p, pub !! i = Some p →
     ∃ c, commits ns !! i = Some c
          ∧ commit_slug c = post_slug p
          ∧ match laneTag p with
            | Some t => commit_branch c = slug t
                        ∧ length (pairedMerges c ns) = 1%nat
            | None => commit_branch c = "main" ∧ pairedMerges c ns = []
            end) as Hrec.
  { intros i p Hp. destruct (Hcs i p Hp) as (c & Hc & Hf).
    destruct Hf as (_ & Hb & Hs & _ & _ & _ & Hy).
    exists c. split_and!; [done..|].
    unfold ns, mapPostsToGraph.
    rewrite (pairedMerges_at L0 now posts i p c) by done.
    unfold branchOf in Hb. unfold mergesOf. by destruct (laneTag p). }
  split; [exact Hrec|].
  intros Hmain c Hc.
  apply list_elem_of_lookup in Hc as [i Hc].
  destruct (lookup_lt_is_Some_2 pub i) as [p Hp].
  { rewrite <- Hlen. by eapply lookup_lt_Some. }
  destruct (Hrec i p Hp) as (c' & Hc' & _ & Hcase).
  assert (c' = c) as -> by congruence.
  destruct (laneTag p) as [t|] eqn:Hlane; destruct Hcase as [Hb Hm].
  - assert (commit_branch c ≠ "main") as Hne.
    { rewrite Hb. eapply Hmain; [|done]. by eapply list_elem_of_lookup_2. }
    split; split; try done.
    intros Hnil. by rewrite Hnil in Hm.
  - split; split; try done. by rewrite Hm.
Qed.

(** C3. The branch list is the main branch, with [x = MAIN_X], followed by
    one branch per distinct first tag of the non-draft records (the records
    of the input whose draft flag is not [true]: the tag of a draft gets a
    branch only if a non-draft record has it too), named by the tag and in
    ascending case-insensitive order (for a [localeCompare] that is a total
    preorder); the tag branch of rank [i] out of [N] has
    [x = MAIN_X - (N - i) * BRANCH_SPACING], so [x] strictly increases with
    the rank and stays left of the main branch. *)
Theorem C3_branch_order now posts :
  ∃ bs,
    branches (mapPostsToGraph now posts)
    = {| branch_id := "main"; branch_name := "main";
         branch_color := "#6b7280"; branch_x := MAIN_X L0 |} :: bs
    ∧ NoDup (branch_name <$> bs)
    ∧ (∀ t, t ∈ branch_name <$> bs
            ↔ ∃ p, p ∈ posts ∧ post_draft p ≠ Some true ∧ firstTag p = Some t)
    ∧ ((∀ a b, (0 < localeCompare a b)%Z → (localeCompare b a ≤ 0)%Z) →
       (∀ a b c, (localeCompare a b ≤ 0)%Z → (localeCompare b c ≤ 0)%Z →
                 (localeCompare a c ≤ 0)%Z) →
       StronglySorted
         (λ a b, (localeCompare (toLowerCase a) (toLowerCase b) ≤ 0)%Z)
         (branch_name <$> bs))
    ∧ (∀ i b, bs !! i = Some b →
         branch_id b = slug (branch_name b)
         ∧ branch_x b
           = (MAIN_X L0
              - inject_Z (Z.of_nat (length bs) - Z.of_nat i) * BRANCH_SPACING L0)%Q)
    ∧ (∀ i j bi bj, (i < j)%nat → bs !! i = Some bi → bs !! j = Some bj →
         (branch_x bi < branch_x bj)%Q ∧ (branch_x bj < MAIN_X L0)%Q).
Proof.
  set (pub := publishedPosts posts). set (tags := sortedTags pub).
  exists (imap (tagBranch L0 (length tags)) tags).
  assert (branch_name <$> imap (tagBranch L0 (length tags)) tags = tags) as Hnames.
  { apply tagBranch_names. }
  destruct (sortedTags_spec pub) as [Hnd Hel]. fold tags in Hnd, Hel.
  assert (∀ i b, imap (tagBranch L0 (length tags)) tags !! i = Some b →
    branch_id b = slug (branch_name b)
    ∧ branch_x b
      = (MAIN_X L0 - inject_Z (Z.of_nat (length tags) - Z.of_nat i) * BRANCH_SPACING L0)%Q
    ∧ (i < length tags)%nat) as Hx.
  { intros i b Hb. apply list_lookup_imap_Some in Hb as (t & Ht & ->).
    split_and!; [done..|]. by eapply lookup_lt_Some. }
  rewrite Hnames, length_imap. split_and!; try done.
  - intros t. rewrite Hel. unfold pub.
    split; intros (p & Hp); exists p.
    + destruct Hp as [Hp Ht]. apply elem_of_publishedPosts in Hp as [? ?]. done.
    + destruct Hp as (Hp & Hd & Ht). split; [|done].
      by apply elem_of_publishedPosts.
  - intros Htot Htrans. apply Array_sort_sorted.
    + intros a b. apply Htot.
    + intros a b c. apply Htrans.
  - intros i b Hb. destruct (Hx i b Hb) as (? & ? & _). done.
  - intros i j bi bj Hij Hi Hj.
    destruct (Hx i bi Hi) as (_ & -> & Hi'). destruct (Hx j bj Hj) as (_ & -> & Hj').
    assert (inject_Z (Z.of_nat (length tags) - Z.of_nat j)
            < inject_Z (Z.of_nat (length tags) - Z.of_nat i))%Q as H1
      by (rewrite <- Zlt_Qlt; lia).
    assert (0 < inject_Z (Z.of_nat (length tags) - Z.of_nat j))%Q as H2
      by (change 0%Q with (inject_Z 0); rewrite <- Zlt_Qlt; lia).
    simpl. split; lra.
Qed.

(** C4. The Separator nodes of the result are, in order, the separators
    between the adjacent pairs of non-draft records (the records of the
    input whose draft flag is not [true], in input order): for each pair at
    most one, at [y = current_record_y - ROW_HEIGHT / 2]; a year separator
    labelled with the new year when the years differ, else a month
    separator labelled with the month abbreviation and the year when the
    months differ, else none. The abbreviations of the months 0 to 11 are
    Jan, Feb, Mar, Apr, May, Jun, Jul, Aug, Sep, Oct, Nov, Dec. With zero
    or one non-draft record there is no separator. *)
Theorem C4_separators now posts :
  let ss := separators (nodes (mapPostsToGraph now posts)) in
  let pub := publishedPosts posts in
  (∀ p, p ∈ pub ↔ p ∈ posts ∧ post_draft p ≠ Some true)
  ∧ sublist pub posts
  ∧ ss = match pub with
         | [] => []
         | first :: rest => separatorsAfter L0 first 1 rest
         end
  ∧ MonthAbbrev <$> seq 0 12
    = [ "Jan"; "Feb"; "Mar"; "Apr"; "May"; "Jun";
        "Jul"; "Aug"; "Sep"; "Oct"; "Nov"; "Dec" ]
  ∧ (∀ prev cur cy,
       let y1 := getFullYear (post_date prev) in
       let y2 := getFullYear (post_date cur) in
       let m1 := getMonth (post_date prev) in
       let m2 := getMonth (post_date cur) in
       match separatorBetween L0 prev cur cy with
       | Some s =>
           separator_y s = (cy - ROW_HEIGHT L0 / 2)%Q
           ∧ ((y2 ≠ y1 ∧ separator_kind s = year ∧ separator_label s = pretty y2)
              ∨ (y2 = y1 ∧ m2 ≠ m1 ∧ separator_kind s = month
                 ∧ separator_label s = MonthAbbrev m2 +:+ " " +:+ pretty y2))
       | None => y2 = y1 ∧ m2 = m1
       end)
  ∧ ((length pub ≤ 1)%nat → ss = [])
  ∧ (length ss ≤ length pub - 1)%nat.
Proof.
  intros ss pub.
  destruct (graph_shape L0 now posts) as (_ & _ & _ & Hss & _).
  fold pub in Hss. change (separators _) with ss in Hss.
  unfold expectedSeparators in Hss. split_and!.
  - intros p. apply elem_of_publishedPosts.
  - apply sublist_publishedPosts.
  - done.
  - reflexivity.
  - intros prev cur cy. unfold separatorBetween. simpl.
    repeat case_bool_decide; simpl; try (split; [done|]); auto.
  - rewrite Hss. destruct pub as [|first [|second rest]]; simpl; [done..|lia].
  - rewrite Hss. destruct pub as [|first rest]; simpl; [done|].
    pose proof (separatorsAfter_length L0 first 1 rest). lia.
Qed.

(** C5. For any layout constants (the defaults among them): at most one
    Today node is emitted, and only with [y > 0]. When today is strictly
    after the newest non-draft record's day, the computed [y] is that of
    the first record, scanning from the newest, dated on or before today;
    when today is on or before that day, or there is no non-draft record,
    the computed [y] is [PADDING_TOP]. The node is emitted when the
    computed [y] is strictly positive and suppressed otherwise. *)
Theorem C5_today_marker L now posts :
  let ts := todays (nodes (mapPostsToGraphWith L now posts)) in
  let pub := publishedPosts posts in
  (length ts ≤ 1)%nat
  ∧ (∀ t, t ∈ ts →
       (0 < today_y t)%Q ∧ today_id t = "today-marker" ∧ today_x t = 0%Q)
  ∧ (∀ newest rest, pub = newest :: rest →
       (startOfDay (post_date newest) < today_time now)%Z →
       ∃ i p,
         list_find (λ p, (startOfDay (post_date p) ≤ today_time now)%Z) pub
         = Some (i, p)
         ∧ ts = markerAt now (row_y L i))
  ∧ (∀ newest rest, pub = newest :: rest →
       (today_time now ≤ startOfDay (post_date newest))%Z →
       ts = markerAt now (PADDING_TOP L))
  ∧ (pub = [] → ts = markerAt now (PADDING_TOP L)).
Proof.
  intros ts pub.
  destruct (graph_shape L now posts) as (_ & _ & _ & _ & Hts & _).
  rewrite todays_todayNodes in Hts. fold pub ts in Hts.
  assert (∀ y t, t ∈ markerAt now y →
    (0 < today_y t)%Q ∧ today_id t = "today-marker" ∧ today_x t = 0%Q) as Hmark.
  { intros y t. unfold markerAt. destruct (Qlt_le_dec 0 y) as [Hy|Hy].
    - by intros ->%list_elem_of_singleton.
    - intros Hin. by apply elem_of_nil in Hin. }
  assert (∀ y, (length (markerAt now y) ≤ 1)%nat) as Hlen.
  { intros y. unfold markerAt. destruct (Qlt_le_dec 0 y); simpl; lia. }
  split_and!.
  - rewrite Hts. destruct (computeTodayY L now pub); [apply Hlen|simpl; lia].
  - intros t. rewrite Hts. destruct (computeTodayY L now pub) as [y|].
    + apply Hmark.
    + intros Hin. by apply elem_of_nil in Hin.
  - intros newest rest Hpub Hlt. exists 0%nat, newest. rewrite Hts, Hpub. simpl.
    rewrite decide_True by lia. split; [done|].
    rewrite (proj2 (Z.ltb_lt _ _) Hlt).
    by rewrite (proj2 (Z.leb_le _ _)) by lia.
  - intros newest rest Hpub Hle. rewrite Hts, Hpub. simpl.
    by rewrite (proj2 (Z.ltb_ge _ _) Hle).
  - intros Hpub. by rewrite Hts, Hpub.
Qed.

(** C8, as amended. When no first tag of a non-draft record has the slug
    ["main"], exactly one branch of the result has the id ["main"]: the
    main branch. *)
Theorem C8_one_main_branch now posts :
  noMainTag (publishedPosts posts) →
  List.filter (λ b, String.eqb (branch_id b) "main")
              (branches (mapPostsToGraph now posts))
  = [ {| branch_id := "main"; branch_name := "main";
         branch_color := "#6b7280"; branch_x := MAIN_X L0 |} ].
Proof.
  intros Hmain. unfold mapPostsToGraph, mapPostsToGraphWith. cbv zeta.
  cbn [branches]. unfold makeBranches. simpl. f_equal.
  apply filter_none. intros b Hb.
  apply elem_of_lookup_imap in Hb as (i & t & -> & Ht). simpl.
  apply String.eqb_neq.
  apply list_elem_of_lookup_2, sortedTags_spec in Ht as (p & Hp & Ht).
  by eapply Hmain.
Qed.

(** C10. For the empty list, and for a list whose records are all drafts,
    the result has the main branch alone, no edge, and one node: the Today
    marker ["today-marker"] at [x = 0], [y = PADDING_TOP = 24]. *)
Theorem C10_nothing_published now posts :
  (∀ p, p ∈ posts → post_draft p = Some true) →
  mapPostsToGraph now posts
  = {| branches := [ {| branch_id := "main"; branch_name := "main";
                        branch_color := "#6b7280"; branch_x := 150 |} ];
       nodes := [ Today {| today_id := "today-marker";
                           today_date := today_iso now;
                           today_x := 0; today_y := 24 |} ];
       edges := [] |}.
Proof.
  intros Hdraft.
  assert (publishedPosts posts = []) as Hpub.
  { unfold publishedPosts. induction posts as [|p ps IH]; [done|]. simpl.
    unfold published at 1. rewrite (Hdraft p) by left.
    apply IH. intros q Hq. apply Hdraft. by right. }
  unfold mapPostsToGraph, mapPostsToGraphWith. by rewrite Hpub.
Qed.

(** C7, as amended. Every edge is a merge-connector from the id of a
    Commit node of the result to the id of the Merge node paired with it
    (same [y], same slug), both present in [nodes]. When the non-draft
    records have pairwise distinct slugs, no two edges have the same
    target, so no node has more than one incoming edge. *)
Theorem C7_edges_connect_pairs now posts :
  let g := mapPostsToGraph now posts in
  (∀ e, e ∈ edges g →
     edge_type e = merge_connector
     ∧ ∃ c m, Commit c ∈ nodes g ∧ Merge m ∈ nodes g
              ∧ edge_from e = commit_id c ∧ edge_to e = merge_id m
              ∧ merge_slug m = commit_slug c ∧ merge_y m = commit_y c)
  ∧ (NoDup (post_slug <$> publishedPosts posts) → NoDup (edge_to <$> edges g)).
Proof.
  intros g. set (pub := publishedPosts posts).
  destruct (graph_shape L0 now posts) as (_ & Hcs & Hms & _ & _ & _ & Hes).
  fold pub in Hcs, Hms, Hes.
  change (mapPostsToGraphWith L0 now posts) with g in Hcs, Hms, Hes. split.
  - intros e He. rewrite Hes in He.
    apply elem_of_flat_mapi in He as (k & p & Hp & He). unfold edgesOf in He.
    destruct (laneTag p) as [t|] eqn:Hlane; [|by apply elem_of_nil in He].
    apply list_elem_of_singleton in He as ->. split; [done|].
    destruct (Hcs k p Hp) as (c & Hc & Hid & _ & Hslug & _ & _ & _ & Hy).
    exists c, (mergeOf L0 k p). split_and!; try done.
    + apply list_elem_of_lookup_2 in Hc.
      apply list_elem_of_omap in Hc as (n & Hn & Hnc).
      destruct n; by simplify_eq.
    + assert (mergeOf L0 k p ∈ merges (nodes g)) as Hm.
      { rewrite Hms. apply elem_of_flat_mapi. exists k, p. split; [done|].
        unfold mergesOf. rewrite Hlane. by left. }
      apply list_elem_of_omap in Hm as (n & Hn & Hnm).
      destruct n; by simplify_eq.
  - intros Hslugs. rewrite Hes, fmap_flat_mapi.
    apply (NoDup_flat_mapi post_slug); [done| |].
    + intros _ p _. unfold edgesOf. destruct (laneTag p); simpl.
      * apply NoDup_singleton.
      * constructor.
    + intros _ _ p p' x _ _. unfold edgesOf.
      destruct (laneTag p), (laneTag p'); simpl;
        intros Hx Hx'; try by apply elem_of_nil in Hx.
      * apply list_elem_of_singleton in Hx as ->.
        apply list_elem_of_singleton in Hx'. unfold mergeIdOf in Hx'.
        by simplify_eq.
      * by apply elem_of_nil in Hx'.
Qed.

(** The ids of the separators do not depend on the layout constants. *)
Lemma separator_ids_layout L prev i rest :
  separator_id <$> separatorsAfter L prev i rest
  = separator_id <$> separatorsAfter L0 prev i rest.
Proof.
  revert prev i. induction rest as [|cur rest IH]; intros prev i; simpl; [done|].
  rewrite !fmap_app, IH. f_equal. unfold separatorBetween.
  by repeat case_bool_decide.
Qed.

(** With a positive top padding the marker is always emitted. *)
Lemma today_id_emitted L now pub :
  (0 < PADDING_TOP L)%Q →
  node_id <$> todayNodes now (computeTodayY L now pub) = ["today-marker"].
Proof.
  intros HL.
  assert (∃ y, computeTodayY L now pub = Some y ∧ (0 < y)%Q) as (y & -> & Hy).
  { unfold computeTodayY. destruct pub as [|newest rest]; [by eexists|].
    destruct (Z.ltb_spec (startOfDay (post_date newest)) (today_time now)).
    - simpl. rewrite (proj2 (Z.leb_le _ _)) by lia.
      eexists. split; [done|]. unfold row_y, num. simpl.
      change (inject_Z (Z.of_nat 0)) with 0%Q. lra.
    - by eexists. }
  rewrite todayNodes_cases. destruct (Qlt_le_dec 0 y) as [_|Hle]; [done|].
  exfalso. by eapply Qlt_not_le.
Qed.

(** C9, as amended. For layout constants with a strictly positive
    [PADDING_TOP], the result has the same node ids in the same order, the
    same edges and the same branch ids as under the default constants;
    only coordinates differ. *)
Theorem C9_constants_move_coordinates_only L now posts :
  (0 < PADDING_TOP L)%Q →
  let g := mapPostsToGraphWith L now posts in
  let g0 := mapPostsToGraph now posts in
  node_id <$> nodes g = node_id <$> nodes g0
  ∧ length (nodes g) = length (nodes g0)
  ∧ edges g = edges g0
  ∧ length (edges g) = length (edges g0)
  ∧ branch_id <$> branches g = branch_id <$> branches g0.
Proof.
  intros HL g g0. set (pub := publishedPosts posts).
  destruct (graph_shape L now posts) as (_ & _ & _ & _ & _ & Hids & Hes).
  destruct (graph_shape L0 now posts) as (_ & _ & _ & _ & _ & Hids0 & Hes0).
  fold pub g in Hids, Hes. fold pub in Hids0, Hes0.
  change (mapPostsToGraphWith L0 now posts) with g0 in Hids0, Hes0.
  assert (node_id <$> nodes g = node_id <$> nodes g0) as Hnodes.
  { rewrite Hids, Hids0, !today_id_emitted by done. do 2 f_equal.
    unfold expectedSeparators. destruct pub as [|first rest]; [done|].
    apply separator_ids_layout. }
  assert (edges g = edges g0) as Hedges by congruence.
  split_and!; try done.
  - by rewrite <- (length_fmap node_id), Hnodes, length_fmap.
  - by rewrite Hedges.
  - unfold g, g0, mapPostsToGraph, mapPostsToGraphWith. cbv zeta. cbn [branches].
    by rewrite !makeBranches_ids.
Qed.

(** The ids made for one record: a commit id, and a merge id when the
    record has a lane. *)
Lemma idsOf_cases p x :
  x ∈ idsOf p → x = commitIdOf p ∨ x = mergeIdOf p.
Proof.
  unfold idsOf. intros [->|Hx]%elem_of_cons; [by left|].
  destruct (laneTag p); [|by apply elem_of_nil in Hx].
  apply list_elem_of_singleton in Hx. by right.
Qed.

Lemma no_hyphen_branchOf pub p :
  hyphenFreeLanes pub → p ∈ pub → no_hyphen (branchOf p) = true.
Proof.
  intros Hfree Hp. unfold branchOf. destruct (laneTag p) as [t|] eqn:Hlane.
  - by eapply Hfree.
  - done.
Qed.

(** C6, as amended. For a list whose non-draft records are ordered newest
    first, have pairwise distinct slugs, and whose lane ids contain no
    hyphen, the node ids of the result are pairwise distinct. *)
Theorem C6_unique_node_ids now posts :
  let pub := publishedPosts posts in
  newestFirst pub →
  NoDup (post_slug <$> pub) →
  hyphenFreeLanes pub →
  NoDup (node_id <$> nodes (mapPostsToGraph now posts)).
Proof.
  intros pub Hnewest Hslugs Hfree.
  destruct (graph_shape L0 now posts) as (_ & _ & _ & _ & _ & Hids & _).
  fold pub in Hids. unfold mapPostsToGraph. rewrite Hids. clear Hids.
  assert (NoDup (flat_mapi (λ _ p, idsOf p) 0 pub)) as Hfirst.
  { apply (NoDup_flat_mapi post_slug); [done| |].
    - intros _ p _. unfold idsOf. destruct (laneTag p).
      + apply NoDup_cons. split; [|apply NoDup_singleton].
        intros Hin%list_elem_of_singleton.
        unfold commitIdOf, mergeIdOf in Hin. simpl in Hin. discriminate Hin.
      + apply NoDup_singleton.
    - intros _ _ p p' x Hp Hp' Hx Hx'.
      apply idsOf_cases in Hx as [->| ->]; apply idsOf_cases in Hx' as [Heq|Heq];
        unfold commitIdOf, mergeIdOf in Heq.
      + apply (inj (String.app _)) in Heq.
        apply split_first_hyphen in Heq as [_ Heq];
          [done|by eapply no_hyphen_branchOf..].
      + simpl in Heq. discriminate Heq.
      + simpl in Heq. discriminate Heq.
      + by apply (inj (String.app _)) in Heq. }
  assert (NoDup (separator_id <$> expectedSeparators L0 pub)
          ∧ ∀ x, x ∈ separator_id <$> expectedSeparators L0 pub →
                 ∃ r, x = "separator-" +:+ r) as [Hsep Hsepform].
  { unfold expectedSeparators. destruct pub as [|first rest].
    - split; [constructor|]. intros x Hx. by apply elem_of_nil in Hx.
    - destruct (separator_ids_NoDup L0 first 1 rest Hnewest) as [Hnd Hold].
      split; [done|]. intros x Hx. rewrite Forall_forall in Hold.
      destruct (Hold x Hx) as [(y & -> & _)|(y & m & -> & _)]; by eexists. }
  assert (node_id <$> todayNodes now (computeTodayY L0 now pub) = []
          ∨ node_id <$> todayNodes now (computeTodayY L0 now pub) = ["today-marker"])
    as Htoday.
  { rewrite todayNodes_cases. destruct (computeTodayY L0 now pub) as [y|]; [|by left].
    destruct (Qlt_le_dec 0 y); [by right|by left]. }
  assert (∀ x, x ∈ flat_mapi (λ _ p, idsOf p) 0 pub →
               ∃ r, x = "commit-" +:+ r ∨ x = "merge-" +:+ r) as Hfirstform.
  { intros x Hx. apply elem_of_flat_mapi in Hx as (k & p & _ & Hx).
    apply idsOf_cases in Hx as [->| ->]; eexists; [by left|by right]. }
  apply NoDup_app. split_and!; [done| |].
  - intros x Hx Hx'. destruct (Hfirstform x Hx) as (r & Hr).
    apply elem_of_app in Hx' as [Hx'|Hx'].
    + destruct (Hsepform x Hx') as (r' & ->).
      destruct Hr as [Hr|Hr]; simpl in Hr; discriminate Hr.
    + destruct Htoday as [Ht|Ht]; rewrite Ht in Hx'.
      * by apply elem_of_nil in Hx'.
      * apply list_elem_of_singleton in Hx' as ->.
        destruct Hr as [Hr|Hr]; simpl in Hr; discriminate Hr.
  - apply NoDup_app. split_and!; [done| |].
    + intros x Hx Hx'. destruct (Hsepform x Hx) as (r & ->).
      destruct Htoday as [Ht|Ht]; rewrite Ht in Hx'.
      * by apply elem_of_nil in Hx'.
      * apply list_elem_of_singleton in Hx'. simpl in Hx'. discriminate Hx'.
    + destruct Htoday as [-> | ->]; [constructor|apply NoDup_singleton].
Qed.

End Properties.

(** * Further properties *)

(** ** Categories *)

Section CategoryProperties.

Context `{Runtime}.

(** X1. The category of a post is always one of the allowed categories,
    and it does not depend on whether warnings are written. *)
Theorem getPostCategory_allowed development tags :
  (Categories.getPostCategory development tags).1 ∈ Categories.ALLOWED_CATEGORIES
  ∧ (Categories.getPostCategory development tags).1
    = (Categories.getPostCategory (negb development) tags).1.
Proof.
  unfold Categories.getPostCategory.
  assert ("others" ∈ Categories.ALLOWED_CATEGORIES) as Hothers
    by (by repeat constructor).
  destruct tags as [[|first [|second rest]]|]; simpl; try done.
  case_bool_decide; simpl; done.
Qed.

Lemma getPostCategory_other_iff development tags c :
  c ≠ "others" →
  (Categories.getPostCategory development tags).1 = c
  ↔ ∃ t, tags = Some [t] ∧ toLowerCase t = c ∧ c ∈ Categories.ALLOWED_CATEGORIES.
Proof.
  intros Hc. unfold Categories.getPostCategory.
  destruct tags as [[|first [|second rest]]|]; simpl.
  - split; [done|]. by intros (t & ? & _).
  - case_bool_decide as Hin; simpl.
    + split.
      * intros <-. by exists first.
      * intros (t & [= <-] & Ht & _). done.
    + split; [done|]. intros (t & [= <-] & Ht & Hal). by rewrite Ht in Hin.
  - split; [done|]. by intros (t & ? & _).
  - split; [done|]. by intros (t & ? & _).
Qed.

(** X2. A post is in a category other than ["others"] exactly when it has
    exactly one tag and that tag, in lower case, is the category; several
    tags, even allowed ones, give ["others"]. *)
Theorem getPostCategory_single_tag development tags c :
  c ≠ "others" →
  (Categories.getPostCategory development tags).1 = c
  ↔ ∃ t, tags = Some [t] ∧ toLowerCase t = c ∧ c ∈ Categories.ALLOWED_CATEGORIES.
Proof. apply getPostCategory_other_iff. Qed.

(** X3. Outside development nothing is written. In development exactly
    one warning is written, unless the post has exactly one tag that is, in
    lower case, an allowed category; then none is. *)
Theorem getPostCategory_warnings tags :
  (Categories.getPostCategory false tags).2 = []
  ∧ ((∃ t, tags = Some [t] ∧ toLowerCase t ∈ Categories.ALLOWED_CATEGORIES)
     → (Categories.getPostCategory true tags).2 = [])
  ∧ ((¬ ∃ t, tags = Some [t] ∧ toLowerCase t ∈ Categories.ALLOWED_CATEGORIES)
     → length (Categories.getPostCategory true tags).2 = 1%nat).
Proof.
  unfold Categories.getPostCategory.
  destruct tags as [[|first [|second rest]]|]; simpl;
    try (split_and!; [done|by intros (t & ? & _)|done]).
  case_bool_decide as Hin; simpl; split_and!; try done.
  - intros Hno. destruct Hno. by exists first.
  - intros (t & [= <-] & Ht). done.
Qed.

End CategoryProperties.

(** ** The category check *)

Lemma units_inj (a b : string) : units a = units b → a = b.
Proof.
  unfold units. intros Heq.
  rewrite <- (string_of_list_ascii_of_string a),
          <- (string_of_list_ascii_of_string b).
  f_equal. revert Heq.
  generalize (list_ascii_of_string a) as l, (list_ascii_of_string b) as l'.
  induction l as [|x l IH]; intros [|y l']; simpl; try done.
  intros [= Hxy Hl]. f_equal; [|by apply IH].
  by rewrite <- (ascii_N_embedding x), <- (ascii_N_embedding y), Hxy.
Qed.

Lemma chars_prefix s k prev i rest capture r :
  RegExp.chars s k prev i rest capture = Some r → ∃ rest', rest = s ++ rest'.
Proof.
  revert prev i rest. induction s as [|c s IH]; intros prev i rest; simpl.
  - intros _. by exists rest.
  - destruct rest as [|d rest]; [done|].
    destruct (N.eqb_spec c d) as [->|]; [|done].
    intros (rest' & ->)%IH. by exists rest'.
Qed.

(** The front matter has to open the file: the pattern is anchored at the
    start of the input. *)
Lemma frontmatter_opens content :
  RegExp.String_match false ValidateCategories.frontmatterPattern content ≠ None →
  ∃ rest, content = units "---" ++ [10%N] ++ rest.
Proof.
  assert (∀ rest c i,
            RegExp.exec false ValidateCategories.frontmatterPattern (Some c) i rest
            = None) as Hlater.
  { induction rest as [|d rest IH]; intros c i; [done|].
    simpl. apply IH. }
  unfold RegExp.String_match. intros Hmatch.
  destruct content as [|c content]; [done|].
  cbn [RegExp.exec] in Hmatch.
  destruct (RegExp.matchHere false ValidateCategories.frontmatterPattern None 0
              (c :: content)) as [r|] eqn:Hhere.
  - unfold RegExp.matchHere, ValidateCategories.frontmatterPattern in Hhere.
    cbn [RegExp.run] in Hhere.
    apply chars_prefix in Hhere as (rest & ->). by exists rest.
  - by rewrite Hlater in Hmatch.
Qed.

Lemma validateFile_valid_iff_tag fileName content :
  ValidateCategories.validateFile fileName content = ValidateCategories.Valid
  ↔ ∃ t, ValidateCategories.extractFrontmatter content = Some (Some [t])
         ∧ t ∈ ValidateCategories.ALLOWED_CATEGORIES.
Proof.
  unfold ValidateCategories.validateFile.
  destruct (ValidateCategories.extractFrontmatter content)
    as [[[|t [|t' rest]]|]|]; simpl;
    try (split; [done|by intros (? & ? & _)]).
  case_bool_decide as Hlearning.
  - split; [done|]. intros (t0 & [= <-] & Hin). subst t.
    apply (bool_decide_pack _) in Hin. vm_compute in Hin. done.
  - case_bool_decide as Hin; simpl.
    + split; [|done]. intros _. by exists t.
    + split; [done|]. intros (t0 & [= <-] & Hin'). done.
Qed.

(** X4. A file passes the check exactly when [extractFrontmatter] finds in
    its content a tags list with exactly one entry and that entry is, as
    written, an allowed category; every error message starts with the name
    of the file. A file that passes begins with three hyphens and a line
    feed. A file that begins with a front matter whose only line is
    [tags: [c]], for an allowed category [c] that is bare or between two
    single or two double quotes, passes, whatever follows the front
    matter. *)
Theorem validateFile_valid_iff fileName content :
  (ValidateCategories.validateFile fileName content = ValidateCategories.Valid
   ↔ ∃ t, ValidateCategories.extractFrontmatter content = Some (Some [t])
          ∧ t ∈ ValidateCategories.ALLOWED_CATEGORIES)
  ∧ (∀ error,
       ValidateCategories.validateFile fileName content
       = ValidateCategories.Invalid error →
       ∃ rest, error = fileName ++ units ": " ++ rest)
  ∧ (ValidateCategories.validateFile fileName content = ValidateCategories.Valid →
     ∃ rest, content = units "---" ++ [10%N] ++ rest)
  ∧ (∀ c q rest,
       c ∈ ValidateCategories.ALLOWED_CATEGORIES →
       q ∈ [ []; [39%N]; [34%N] ] →
       content = units "---" ++ [10%N] ++ units "tags: [" ++ q ++ c ++ q
                 ++ units "]" ++ [10%N] ++ units "---" ++ rest →
       ValidateCategories.validateFile fileName content = ValidateCategories.Valid).
Proof.
  split_and!.
  - apply validateFile_valid_iff_tag.
  - unfold ValidateCategories.validateFile.
    destruct (ValidateCategories.extractFrontmatter content)
      as [[[|t [|t' rest]]|]|]; simpl;
      try (intros e [= <-]; by eexists).
    repeat case_bool_decide; simpl; try done; intros e [= <-]; by eexists.
  - intros Hvalid. apply frontmatter_opens.
    apply validateFile_valid_iff_tag in Hvalid as (t & Ht & _).
    unfold ValidateCategories.extractFrontmatter in Ht.
    by destruct (RegExp.String_match false _ content).
  - intros c q rest Hc Hq ->.
    unfold ValidateCategories.ALLOWED_CATEGORIES in Hc. simpl in Hc.
    repeat (apply elem_of_cons in Hc as [->|Hc]);
      [..|by apply elem_of_nil in Hc];
      (repeat (apply elem_of_cons in Hq as [->|Hq]);
         [..|by apply elem_of_nil in Hq]);
      vm_compute; reflexivity.
Qed.

(** ** The home page *)

Lemma totalPages_div fp :
  Home.totalPages fp = Z.max 1 ((Z.of_nat (length fp) + 4) / 5).
Proof.
  unfold Home.totalPages, Home.POSTS_PER_PAGE, num, Qceiling, Qfloor. simpl.
  rewrite Z.mul_1_r. f_equal.
  Z.to_euclidean_division_equations. lia.
Qed.

Lemma totalPages_bounds fp :
  let n := Z.of_nat (length fp) in
  (1 ≤ Home.totalPages fp)%Z
  ∧ (n ≤ 5 * Home.totalPages fp)%Z
  ∧ (0 < n → 5 * (Home.totalPages fp - 1) < n)%Z
  ∧ (n = 0 → Home.totalPages fp = 1)%Z.
Proof.
  intros n. rewrite totalPages_div. fold n.
  assert (0 ≤ n)%Z by (unfold n; lia).
  Z.to_euclidean_division_equations. lia.
Qed.

Lemma currentPage_bounds parsedPage fp :
  (1 ≤ Home.currentPage parsedPage (Home.totalPages fp) ≤ Home.totalPages fp)%Z.
Proof.
  destruct (totalPages_bounds fp) as (H1 & _). unfold Home.currentPage.
  destruct parsedPage as [n|]; [|lia].
  destruct (Z.ltb_spec 0 n); lia.
Qed.

(** The page [currentPage] is the run of at most five posts that starts
    after the posts of the pages before it. *)
Lemma displayPosts_take_drop (fp : list Post) currentPage :
  (1 ≤ currentPage)%Z →
  Home.displayPosts fp currentPage
  = take 5 (drop (5 * Z.to_nat (currentPage - 1)) fp).
Proof.
  intros Hcur. unfold Home.displayPosts, Array_slice, Home.POSTS_PER_PAGE.
  cbv zeta.
  set (start := ((currentPage - 1) * 5)%Z). set (len := Z.of_nat (length fp)).
  assert (0 ≤ start)%Z as Hstart by (unfold start; lia).
  assert (5 * Z.to_nat (currentPage - 1) = Z.to_nat start)%nat as -> by (unfold start; lia).
  rewrite (proj2 (Z.ltb_ge start 0)) by lia.
  rewrite (proj2 (Z.ltb_ge (start + 5) 0)) by lia.
  destruct (Z.le_gt_cases len start) as [Hout|Hin].
  - rewrite !Z.min_r by lia. rewrite Z.sub_diag. simpl.
    rewrite (drop_ge fp (Z.to_nat start)) by (unfold len in Hout; lia). done.
  - rewrite (Z.min_l start) by lia.
    destruct (Z.le_gt_cases (start + 5) len) as [Hfull|Hpart].
    + rewrite Z.min_l by lia. f_equal. lia.
    + rewrite Z.min_r by lia.
      rewrite !take_ge; [done|rewrite length_drop; unfold len in *; lia..].
Qed.

(** X5. Whatever page is requested (none, not a number, zero, negative or
    too large), the page shown lies between 1 and the number of pages. *)
Theorem currentPage_in_range parseInt rawPage fp :
  let total := Home.totalPages fp in
  let current := Home.currentPage (Home.parsedPage parseInt rawPage) total in
  (1 ≤ current ≤ total)%Z
  ∧ (∀ n, Home.parsedPage parseInt rawPage = Some n → (1 ≤ n ≤ total)%Z →
          current = n).
Proof.
  intros total current. split; [apply currentPage_bounds|].
  intros n Hn Hrange. unfold current, Home.currentPage. rewrite Hn.
  rewrite (proj2 (Z.ltb_lt _ _)) by lia. lia.
Qed.

(** X6. A page never shows more than five posts, and it shows at least
    one whenever there is a post to show: clamping the page number rules
    out an empty page. *)
Theorem page_size fp parsedPage :
  (length (Home.page fp parsedPage) ≤ 5)%nat
  ∧ (fp ≠ [] → Home.page fp parsedPage ≠ [])
  ∧ (∀ post, post ∈ Home.page fp parsedPage → post ∈ fp).
Proof.
  unfold Home.page.
  pose proof (currentPage_bounds parsedPage fp) as Hcur.
  destruct (totalPages_bounds fp) as (_ & _ & Hlast & _).
  rewrite displayPosts_take_drop by lia.
  set (cur := Home.currentPage parsedPage (Home.totalPages fp)) in *.
  split_and!.
  - rewrite length_take. lia.
  - intros Hne Hnil. apply (f_equal length) in Hnil.
    rewrite length_take, length_drop in Hnil.
    change (length []) with 0%nat in Hnil.
    assert (0 < length fp)%nat by (destruct fp; simpl; [done|lia]).
    cbv zeta in Hlast. lia.
  - intros post Hin. by apply subseteq_take, subseteq_drop in Hin.
Qed.

Lemma chunks_take {A} (l : list A) pages :
  concat ((λ k, take 5 (drop (5 * k) l)) <$> seq 0 pages) = take (5 * pages) l.
Proof.
  induction pages as [|pages IH].
  - by rewrite Nat.mul_0_r, take_0.
  - rewrite seq_S, fmap_app, concat_app, IH. simpl. rewrite app_nil_r.
    rewrite take_take_drop. f_equal. lia.
Qed.

(** X7. The pages 1 to [totalPages], one after the other, are the
    filtered posts: every post is on exactly one page, in order. *)
Theorem pages_partition fp :
  concat ((λ k, Home.page fp (Some (Z.of_nat k)))
            <$> seq 1 (Z.to_nat (Home.totalPages fp)))
  = fp.
Proof.
  destruct (totalPages_bounds fp) as (H1 & Hall & _).
  rewrite <- fmap_S_seq, <- list_fmap_compose.
  rewrite (list_fmap_ext _ (λ k, take 5 (drop (5 * k) fp))).
  - rewrite chunks_take. apply take_ge. lia.
  - intros i k Hk. apply lookup_seq in Hk as [Heq Hk]. simpl in Heq. subst i.
    simpl. unfold Home.page.
    assert (Home.currentPage (Some (Z.of_nat (S k))) (Home.totalPages fp)
            = Z.of_nat (S k)) as ->.
    { unfold Home.currentPage. rewrite (proj2 (Z.ltb_lt _ _)) by lia. lia. }
    rewrite displayPosts_take_drop by lia. do 3 f_equal. lia.
Qed.

(** X8. The page navigation is rendered exactly when there is more than
    one page, and exactly when the Previous or the Next link is active;
    Previous is active from page 2 on and Next before the last page. *)
Theorem navigation_links fp parsedPage :
  let total := Home.totalPages fp in
  let current := Home.currentPage parsedPage total in
  (Home.showNav fp = true ↔ (1 < total)%Z)
  ∧ Home.showNav fp = Home.prevPage current || Home.nextPage current total
  ∧ (Home.prevPage current = true ↔ (1 < current)%Z)
  ∧ (Home.nextPage current total = true ↔ (current < total)%Z).
Proof.
  intros total current.
  pose proof (currentPage_bounds parsedPage fp) as Hcur. fold total current in Hcur.
  assert (Home.showNav fp = true ↔ (1 < total)%Z) as Hnav.
  { unfold Home.showNav, Home.POSTS_PER_PAGE, total. rewrite totalPages_div.
    rewrite Z.ltb_lt. Z.to_euclidean_division_equations. lia. }
  assert (Home.prevPage current = true ↔ (1 < current)%Z) as Hprev.
  { unfold Home.prevPage. rewrite Z.ltb_lt. lia. }
  assert (Home.nextPage current total = true ↔ (current < total)%Z) as Hnext.
  { unfold Home.nextPage. rewrite Z.leb_le. lia. }
  split_and!; try done.
  destruct (Home.showNav fp) eqn:Hs.
  - symmetry. apply orb_true_iff. rewrite Hprev, Hnext.
    assert (1 < total)%Z by (by apply Hnav). lia.
  - symmetry. apply orb_false_iff.
    assert (¬ (1 < total)%Z) as Hone by (rewrite <- Hnav; congruence).
    split; apply not_true_iff_false; [rewrite Hprev|rewrite Hnext]; lia.
Qed.

Section HomeFilter.

Context `{Runtime}.

(** X9. The tag filter is active only for a query value that is, as
    written, one of the four category names; any other value shows every
    post. An active filter keeps, in order, the posts of that category:
    for a category other than ["others"], the posts with exactly one tag
    equal to it up to case. *)
Theorem tag_filter development posts rawTag :
  let active := Home.activeTag rawTag in
  let shown := Home.filteredPosts development posts active in
  (∀ c, active = Some c ↔ rawTag = Some c ∧ c ∈ Categories.ALLOWED_CATEGORIES)
  ∧ (active = None → shown = posts)
  ∧ sublist shown posts
  ∧ (∀ c post, active = Some c → c ≠ "others" →
       post ∈ shown
       ↔ post ∈ posts ∧ ∃ t, post_tags post = Some [t] ∧ toLowerCase t = c).
Proof.
  intros active shown.
  assert (∀ c, active = Some c ↔ rawTag = Some c ∧ c ∈ Categories.ALLOWED_CATEGORIES)
    as Hactive.
  { intros c. unfold active, Home.activeTag, Home.ALL_CATEGORIES.
    destruct rawTag as [t|]; [|split; [done|by intros [? _]]].
    case_bool_decide as Hin.
    - destruct t as [|a t]; simpl.
      + exfalso. apply (bool_decide_pack _) in Hin. vm_compute in Hin. done.
      + split; [by intros [= <-]|by intros [[= <-] _]].
    - rewrite andb_false_r. split; [done|]. intros [[= <-] ?]. done. }
  split_and!; try done.
  - intros Hnone. unfold shown. by rewrite Hnone.
  - unfold shown, Home.filteredPosts. destruct active as [c|]; [|done].
    induction posts as [|p ps IH]; simpl; [constructor|].
    destruct (String.eqb _ c); by constructor.
  - intros c post Hc Hother. unfold shown. rewrite Hc. simpl.
    rewrite list_elem_of_In, filter_In, <- list_elem_of_In, String.eqb_eq.
    apply Hactive in Hc as [_ Hallowed].
    rewrite getPostCategory_other_iff by done.
    split; intros [Hin (t & Ht & Hlow)]; (split; [done|]); exists t.
    + by destruct Hlow.
    + done.
Qed.

End HomeFilter.

(** ** The category check, continued *)

Lemma collectErrors_from i (files : list (JsString * JsString)) errors :
  forEach_from (λ (file : JsString * JsString) (_ : nat) errors,
                  match ValidateCategories.validateFile file.1 file.2 with
                  | ValidateCategories.Invalid error => errors ++ [error]
                  | ValidateCategories.Valid => errors
                  end) i files errors
  = errors
    ++ omap (λ file, match ValidateCategories.validateFile file.1 file.2 with
                     | ValidateCategories.Invalid error => Some error
                     | ValidateCategories.Valid => None
                     end) files.
Proof.
  revert i errors. induction files as [|file files IH]; intros i errors; simpl.
  - by rewrite app_nil_r.
  - rewrite IH. destruct (ValidateCategories.validateFile file.1 file.2); simpl.
    + done.
    + by rewrite <- app_assoc.
Qed.

(** X10. The check exits with 0 exactly when the blog directory exists
    and every [.mdx] file in it passes [validateFile]; other files are not
    looked at, and a directory without [.mdx] files passes. One error is
    collected per rejected file. *)
Theorem main_exit_code dirExists entries :
  let mdx := List.filter (λ f, endsWith (units ".mdx") f.1) entries in
  (ValidateCategories.main dirExists entries = 0%Z
   ↔ dirExists = true
     ∧ ∀ file, file ∈ mdx →
         ValidateCategories.validateFile file.1 file.2 = ValidateCategories.Valid)
  ∧ (ValidateCategories.main dirExists entries = 0%Z
     ∨ ValidateCategories.main dirExists entries = 1%Z)
  ∧ length (ValidateCategories.collectErrors entries)
    = length (List.filter
                (λ f, negb (ValidateCategories.is_valid
                              (ValidateCategories.validateFile f.1 f.2))) mdx).
Proof.
  intros mdx.
  assert (ValidateCategories.collectErrors entries
          = omap (λ file, match ValidateCategories.validateFile file.1 file.2 with
                          | ValidateCategories.Invalid error => Some error
                          | ValidateCategories.Valid => None
                          end) mdx) as Herr.
  { unfold ValidateCategories.collectErrors, forEach. cbv zeta. fold mdx.
    by rewrite collectErrors_from. }
  assert (length (ValidateCategories.collectErrors entries)
          = length (List.filter
                      (λ f, negb (ValidateCategories.is_valid
                                    (ValidateCategories.validateFile f.1 f.2))) mdx))
    as Hlen.
  { rewrite Herr. clear Herr. generalize mdx as files.
    induction files as [|file files IH]; simpl; [done|].
    destruct (ValidateCategories.validateFile file.1 file.2); simpl;
      [exact IH|f_equal; exact IH]. }
  assert (length (ValidateCategories.collectErrors entries) = 0%nat
          ↔ ∀ file, file ∈ mdx →
              ValidateCategories.validateFile file.1 file.2 = ValidateCategories.Valid)
    as Hnone.
  { rewrite Hlen. clear Hlen Herr. generalize mdx as files.
    induction files as [|file files IH]; simpl.
    - split; [|done]. intros _ f Hf. by apply elem_of_nil in Hf.
    - destruct (ValidateCategories.validateFile file.1 file.2) eqn:Hv; simpl.
      + rewrite IH. split.
        * intros Hall f [->|Hf]%elem_of_cons; [done|by apply Hall].
        * intros Hall f Hf. apply Hall. by right.
      + split; [done|]. intros Hall. specialize (Hall file). rewrite Hv in Hall.
        discriminate Hall. by left. }
  split_and!; [|unfold ValidateCategories.main; repeat case_match; auto|done].
  unfold ValidateCategories.main. fold mdx.
  destruct dirExists; simpl; [|split; [done|by intros [? _]]].
  destruct (Nat.eqb_spec (length mdx) 0) as [Hz|Hnz].
  - split; [|done]. intros _. split; [done|].
    destruct mdx; [|done]. intros f Hf. by apply elem_of_nil in Hf.
  - destruct (Nat.ltb_spec 0 (length (ValidateCategories.collectErrors entries))).
    + split; [done|]. intros [_ Hall]. apply Hnone in Hall. lia.
    + split; [|done]. intros _. split; [done|]. apply Hnone. lia.
Qed.

Section ValidatedPosts.

Context `{Runtime}.

(** The check saw the tags of the post: [extractFrontmatter] found in the
    content of the file the tags the post has. *)
Lemma checked_tags fileName content (tags : list string) :
  ValidateCategories.validateFile fileName content = ValidateCategories.Valid →
  ValidateCategories.extractFrontmatter content = Some (Some (units <$> tags)) →
  ∃ t, tags = [t] ∧ t ∈ Categories.ALLOWED_CATEGORIES.
Proof.
  intros Hvalid Hseen.
  apply validateFile_valid_iff_tag in Hvalid as (u & Hu & Hin).
  rewrite Hseen in Hu. injection Hu as Hu.
  destruct tags as [|t [|t' tags]]; try done. injection Hu as <-.
  exists t. split; [done|].
  unfold ValidateCategories.ALLOWED_CATEGORIES in Hin.
  apply list_elem_of_fmap in Hin as (c & Hc & Hin).
  by apply units_inj in Hc as ->.
Qed.

(** X11. When the tags [extractFrontmatter] finds in a file are the tags
    of its post, tags that pass the check give the post the category they
    name, without a warning, provided lower-casing leaves the category
    names as they are: the check and the category lookup then agree. *)
Theorem validated_tags_category fileName content development tags :
  (∀ c, c ∈ Categories.ALLOWED_CATEGORIES → toLowerCase c = c) →
  ValidateCategories.extractFrontmatter content = Some (Some (units <$> tags)) →
  ValidateCategories.validateFile fileName content = ValidateCategories.Valid →
  ∃ t, tags = [t]
       ∧ Categories.getPostCategory development (Some tags) = (t, []).
Proof.
  intros Hlower Hseen Hvalid.
  destruct (checked_tags fileName content tags Hvalid Hseen) as (t & -> & Ht).
  exists t. split; [done|]. unfold Categories.getPostCategory. simpl.
  rewrite (Hlower t) by done. by rewrite bool_decide_eq_true_2.
Qed.

(** X12. When, for every published post, the tags [extractFrontmatter]
    finds in its file are the tags of the post and the file passes the
    check, and the slug of a category name is the name itself, no tag
    collides with the main branch, no lane id contains a hyphen, and the
    graph has at most five branches. *)
Theorem validated_posts_graph now posts :
  (∀ c, c ∈ Categories.ALLOWED_CATEGORIES → slug c = c) →
  (∀ post, post ∈ publishedPosts posts →
     ∃ fileName content tags,
       post_tags post = Some tags
       ∧ ValidateCategories.extractFrontmatter content
         = Some (Some (units <$> tags))
       ∧ ValidateCategories.validateFile fileName content
         = ValidateCategories.Valid) →
  noMainTag (publishedPosts posts)
  ∧ noMainLane (publishedPosts posts)
  ∧ hyphenFreeLanes (publishedPosts posts)
  ∧ (length (branches (mapPostsToGraph now posts)) ≤ 5)%nat.
Proof.
  intros Hslug Hvalid. set (pub := publishedPosts posts) in *.
  assert (∀ p t, p ∈ pub → firstTag p = Some t →
            t ∈ Categories.ALLOWED_CATEGORIES) as Htags.
  { intros p t Hp Ht.
    destruct (Hvalid p Hp) as (name & content & tags & Hpost & Hseen & Hv).
    destruct (checked_tags name content tags Hv Hseen) as (t' & -> & Hin).
    unfold firstTag in Ht. rewrite Hpost in Ht. by injection Ht as <-. }
  assert (∀ t, t ∈ Categories.ALLOWED_CATEGORIES →
            slug t ≠ "main" ∧ no_hyphen (slug t) = true) as Hfacts.
  { intros t Ht. rewrite (Hslug t Ht).
    unfold Categories.ALLOWED_CATEGORIES in Ht.
    repeat (apply elem_of_cons in Ht as [->|Ht]; [done|]).
    by apply elem_of_nil in Ht. }
  assert (∀ p t, laneTag p = Some t → firstTag p = Some t) as Hlane.
  { intros p t. unfold laneTag. destruct (firstTag p) as [t'|]; [|done].
    destruct (truthy t'); [|done]. congruence. }
  split_and!.
  - intros p t Hp Ht. by apply Hfacts, (Htags p).
  - intros p t Hp Ht. by apply Hfacts, (Htags p), Hlane.
  - intros p t Hp Ht. by apply Hfacts, (Htags p), Hlane.
  - unfold mapPostsToGraph, mapPostsToGraphWith. cbv zeta. cbn [branches].
    fold pub. unfold makeBranches. simpl. rewrite length_imap.
    destruct (sortedTags_spec pub) as [Hnd Hel].
    assert (sortedTags pub ⊆+ Categories.ALLOWED_CATEGORIES) as Hsub.
    { apply NoDup_submseteq; [done|]. intros t Ht.
      apply Hel in Ht as (p & Hp & Ht). by eapply Htags. }
    apply submseteq_length in Hsub. simpl in Hsub. lia.
Qed.

End ValidatedPosts.

(** ** The graph model, continued *)

Section MoreGraph.

Context `{Runtime}.

Local Abbreviation L0 := LAYOUT_CONSTANTS.

Lemma publishedPosts_app l1 l2 :
  publishedPosts (l1 ++ l2) = publishedPosts l1 ++ publishedPosts l2.
Proof. unfold publishedPosts. apply List.filter_app. Qed.

(** X13. Drafts leave no trace: a draft inserted anywhere in the input
    changes nothing in the result, and the result is that of the published
    posts alone. *)
Theorem drafts_leave_no_trace L now before draft after :
  post_draft draft = Some true →
  mapPostsToGraphWith L now (before ++ draft :: after)
  = mapPostsToGraphWith L now (before ++ after)
  ∧ mapPostsToGraphWith L now (publishedPosts (before ++ draft :: after))
    = mapPostsToGraphWith L now (before ++ after).
Proof.
  intros Hdraft.
  assert (publishedPosts (before ++ draft :: after) = publishedPosts (before ++ after))
    as Hpub.
  { rewrite !publishedPosts_app. f_equal. unfold publishedPosts. simpl.
    unfold published at 1. by rewrite Hdraft. }
  assert (∀ l, publishedPosts (publishedPosts l) = publishedPosts l) as Hidem.
  { intros l. unfold publishedPosts. induction l as [|p l IH]; simpl; [done|].
    destruct (published p) eqn:Hp; simpl; [|done]. by rewrite Hp, IH. }
  unfold mapPostsToGraphWith. cbv zeta. by rewrite Hidem, Hpub.
Qed.

Lemma computeTodayY_default now pub :
  computeTodayY L0 now pub = Some 24%Q.
Proof.
  unfold computeTodayY. destruct pub as [|newest rest]; [done|].
  destruct (Z.ltb_spec (startOfDay (post_date newest)) (today_time now)); [|done].
  simpl. by rewrite (proj2 (Z.leb_le _ _)) by lia.
Qed.

Lemma nodes_default now posts :
  let pub := publishedPosts posts in
  nodes (mapPostsToGraph now posts)
  = (flat_mapi (postNodes L0 (branchMapOf L0 pub)) 0 pub
     ++ (Separator <$> expectedSeparators L0 pub))
    ++ [Today (todayMarker now)].
Proof.
  intros pub. unfold mapPostsToGraph. rewrite mapPostsToGraphWith_nodes.
  fold pub. rewrite computeTodayY_default, todayNodes_cases.
  by rewrite <- app_assoc.
Qed.

(** X14. Under the default constants the Today marker is always emitted,
    always at [y = 24], and is always the last node, whatever the posts and
    the date; apart from that node's date the result does not depend on the
    clock. *)
Theorem today_marker_is_last posts :
  ∃ body,
    todays body = []
    ∧ ∀ now,
        nodes (mapPostsToGraph now posts) = body ++ [Today (todayMarker now)]
        ∧ last (nodes (mapPostsToGraph now posts)) = Some (Today (todayMarker now))
        ∧ ∀ now', branches (mapPostsToGraph now' posts)
                  = branches (mapPostsToGraph now posts)
                  ∧ edges (mapPostsToGraph now' posts)
                    = edges (mapPostsToGraph now posts).
Proof.
  set (pub := publishedPosts posts).
  exists (flat_mapi (postNodes L0 (branchMapOf L0 pub)) 0 pub
          ++ (Separator <$> expectedSeparators L0 pub)).
  split.
  - destruct (first_pass L0 (branchMapOf L0 pub) 0 pub) as (_ & _ & _ & _ & Hts & _).
    { intros p t. apply branchMapOf_lookup. }
    unfold todays in *. rewrite omap_app, Hts.
    pose proof (todays_Separator (expectedSeparators L0 pub)) as Hs.
    unfold todays in Hs. by rewrite Hs.
  - intros now. rewrite nodes_default. fold pub. split_and!; [done| |].
    + by rewrite last_snoc.
    + intros now'. unfold mapPostsToGraph.
      rewrite !mapPostsToGraphWith_edges. done.
Qed.

Lemma length_by_kind (ns : list GraphNode) :
  length ns = (length (commits ns) + length (merges ns)
               + length (separators ns) + length (todays ns))%nat.
Proof.
  induction ns as [|n ns IH]; [done|]. destruct n; simpl; lia.
Qed.

Lemma length_mergesOf L i l :
  length (flat_mapi (mergesOf L) i l) = length (List.filter onLane l).
Proof.
  revert i. induction l as [|p l IH]; intros i; simpl; [done|].
  rewrite length_app, IH. unfold mergesOf, onLane.
  by destruct (laneTag p).
Qed.

Lemma length_edgesOf i l :
  length (flat_mapi (λ _ p, edgesOf p) i l) = length (List.filter onLane l).
Proof.
  revert i. induction l as [|p l IH]; intros i; simpl; [done|].
  rewrite length_app, IH. unfold edgesOf, onLane.
  by destruct (laneTag p).
Qed.

(** X15. The result has one Merge node and one edge per non-draft record
    with a non-empty primary tag, and its node count is the number of
    non-draft records, plus those, plus the separators, plus one for the
    Today marker. *)
Theorem node_and_edge_counts now posts :
  let g := mapPostsToGraph now posts in
  let pub := publishedPosts posts in
  let lanes := List.filter onLane pub in
  length (merges (nodes g)) = length lanes
  ∧ length (edges g) = length lanes
  ∧ length (nodes g)
    = (length pub + length lanes + length (separators (nodes g)) + 1)%nat.
Proof.
  intros g pub lanes.
  destruct (graph_shape L0 now posts) as (Hlen & _ & Hms & _ & Hts & _ & Hes).
  fold pub in Hlen, Hms, Hts, Hes.
  change (mapPostsToGraphWith L0 now posts) with g in Hlen, Hms, Hts, Hes.
  assert (length (merges (nodes g)) = length lanes) as Hm
    by (rewrite Hms; apply length_mergesOf).
  split_and!; [done|rewrite Hes; apply length_edgesOf|].
  rewrite (length_by_kind (nodes g)), Hlen, Hm, Hts.
  by rewrite computeTodayY_default, todayNodes_cases.
Qed.

End MoreGraph.

(** ** Rails *)

Section Rails.

Context `{Runtime}.

Local Abbreviation L0 := LAYOUT_CONSTANTS.

(** What a lookup in the branch table returns: the last branch listed
    with that id, or what the table held before. *)
Lemma foldl_insert_lookup bs (m : gmap string Branch) k b :
  foldl (λ m b, <[branch_id b := b]> m) m bs !! k = Some b →
  (b ∈ bs ∧ branch_id b = k) ∨ (m !! k = Some b ∧ k ∉ branch_id <$> bs).
Proof.
  revert m. induction bs as [|x bs IH]; intros m; simpl.
  - intros Hm. right. split; [done|]. apply not_elem_of_nil.
  - intros Hk. apply IH in Hk as [[Hin Hid]|[Hm Hnot]].
    + left. split; [by right|done].
    + destruct (decide (branch_id x = k)) as [Hx|Hx].
      * rewrite <- Hx, lookup_insert_eq in Hm. injection Hm as <-.
        left. split; [by left|done].
      * rewrite lookup_insert_ne in Hm by done. right. split; [done|].
        intros [?|?]%elem_of_cons; [congruence|done].
Qed.

(** The branch found for a first tag is a tag branch, never the main
    branch, even when the slug of the tag is ["main"]. *)
Lemma branchMapOf_tag_branch L pub p t b :
  p ∈ pub → firstTag p = Some t →
  branchMapOf L pub !! slug t = Some b →
  ∃ j t', sortedTags pub !! j = Some t'
          ∧ b = tagBranch L (length (sortedTags pub)) j t'
          ∧ slug t' = slug t.
Proof.
  intros Hp Ht Hb. unfold branchMapOf, Map_of_branches, makeBranches in Hb.
  simpl in Hb. apply foldl_insert_lookup in Hb as [[Hin Hid]|[_ Hnot]].
  - apply elem_of_lookup_imap in Hin as (j & t' & -> & Hj). by exists j, t'.
  - exfalso. apply Hnot.
    assert (t ∈ sortedTags pub) as Hin by (apply sortedTags_spec; eauto).
    apply list_elem_of_lookup in Hin as [j Hj].
    apply list_elem_of_lookup. exists j.
    by rewrite list_lookup_fmap, list_lookup_imap, Hj.
Qed.

Lemma addPost_commit_x L bm i p c rest :
  postNodes L bm i p = Commit c :: rest →
  commit_x c = match laneTag p with
               | Some t => match bm !! slug t with
                           | Some b => branch_x b
                           | None => MAIN_X L
                           end
               | None => MAIN_X L
               end.
Proof.
  unfold postNodes, addPost, laneTag.
  destruct (firstTag p) as [t|]; [|by intros [= <- _]].
  destruct (truthy t).
  - destruct (bm !! slug t); by intros [= <- _].
  - destruct (bm !! "main"); by intros [= <- _].
Qed.

Lemma commits_first_pass_lookup L bm i l k p c :
  (∀ q t, q ∈ l → firstTag q = Some t → is_Some (bm !! slug t)) →
  l !! k = Some p →
  commits (flat_mapi (postNodes L bm) i l) !! k = Some c →
  ∃ rest, postNodes L bm (i + k) p = Commit c :: rest.
Proof.
  revert i k. induction l as [|q l IH]; intros i k Hbm Hk Hc; [done|].
  simpl in Hc. destruct (addPost_emits L bm i q) as (c0 & _ & Hn & _).
  { intros t. apply Hbm. by left. }
  rewrite Hn in Hc. unfold commits in Hc. rewrite omap_app in Hc.
  assert (omap (λ n, match n with Commit c => Some c | _ => None end)
               (Commit c0 :: match laneTag q with
                             | Some _ => [Merge (mergeOf L i q)]
                             | None => []
                             end) = [c0]) as Hhead by (by destruct (laneTag q)).
  rewrite Hhead in Hc. destruct k as [|k]; simpl in Hk, Hc.
  - injection Hk as <-. injection Hc as <-. rewrite Nat.add_0_r. by eexists.
  - rewrite Nat.add_succ_r. apply (IH (S i) k); [|done..].
    intros q' t Hq'. apply Hbm. by right.
Qed.

Lemma commits_nodes L now posts :
  let pub := publishedPosts posts in
  commits (nodes (mapPostsToGraphWith L now posts))
  = commits (flat_mapi (postNodes L (branchMapOf L pub)) 0 pub).
Proof.
  intros pub. rewrite mapPostsToGraphWith_nodes. fold pub.
  unfold commits. rewrite !omap_app.
  destruct (todayNodes_others now (computeTodayY L now pub)) as (Ht & _).
  pose proof (commits_Separator (expectedSeparators L pub)) as Hs.
  unfold commits in Ht, Hs. by rewrite Ht, Hs, !app_nil_r.
Qed.

(** The rail of the commit of the record at index [i]. *)
Lemma commit_rail now posts i p c :
  publishedPosts posts !! i = Some p →
  commits (nodes (mapPostsToGraph now posts)) !! i = Some c →
  match laneTag p with
  | Some t =>
      ∃ j t', sortedTags (publishedPosts posts) !! j = Some t'
              ∧ slug t' = slug t
              ∧ commit_branch c = slug t'
              ∧ commit_x c
                = branch_x (tagBranch L0 (length (sortedTags (publishedPosts posts))) j t')
  | None => commit_x c = MAIN_X L0 ∧ commit_branch c = "main"
  end.
Proof.
  intros Hp Hc. set (pub := publishedPosts posts) in *.
  destruct (graph_shape L0 now posts) as (_ & Hcs & _).
  destruct (Hcs i p Hp) as (c' & Hc' & _ & Hbr & _).
  assert (c' = c) as -> by (unfold mapPostsToGraph in Hc; congruence).
  unfold mapPostsToGraph in Hc. rewrite commits_nodes in Hc. fold pub in Hc.
  apply (commits_first_pass_lookup L0 _ 0 pub i p c) in Hc as (rest & Hn);
    [|intros q t; apply branchMapOf_lookup|done].
  apply addPost_commit_x in Hn. unfold branchOf in Hbr.
  destruct (laneTag p) as [t|] eqn:Hlane; [|done].
  assert (firstTag p = Some t) as Hfirst.
  { unfold laneTag in Hlane. destruct (firstTag p) as [t'|]; [|done].
    destruct (truthy t'); [|done]. congruence. }
  assert (p ∈ pub) as Hin by (by eapply list_elem_of_lookup_2).
  destruct (branchMapOf_lookup L0 pub p t Hin Hfirst) as [b Hb].
  rewrite Hb in Hn.
  destruct (branchMapOf_tag_branch L0 pub p t b Hin Hfirst Hb) as (j & t' & Hj & -> & Hs).
  exists j, t'. rewrite Hbr, Hn. done.
Qed.

(** X16. Every Merge node is on the main rail. The commit of a record
    without a non-empty primary tag is on the main rail too. The commit of
    a record with one is on the rail of a tag branch of the result that has
    the commit's branch id, strictly left of the main rail, also when the
    tag has the slug ["main"]. *)
Theorem commits_on_rails now posts :
  let g := mapPostsToGraph now posts in
  (∀ m, m ∈ merges (nodes g) → merge_x m = MAIN_X L0)
  ∧ ∀ i p c,
      publishedPosts posts !! i = Some p →
      commits (nodes g) !! i = Some c →
      match laneTag p with
      | Some t =>
          ∃ j b, branches g !! S j = Some b
                 ∧ branch_id b = commit_branch c
                 ∧ commit_x c = branch_x b
                 ∧ (commit_x c < MAIN_X L0)%Q
      | None => commit_x c = MAIN_X L0 ∧ commit_branch c = "main"
      end.
Proof.
  intros g. split.
  - intros m Hm. destruct (graph_shape L0 now posts) as (_ & _ & Hms & _).
    unfold g, mapPostsToGraph in Hm. rewrite Hms in Hm.
    apply elem_of_flat_mapi in Hm as (k & p & _ & Hm). unfold mergesOf in Hm.
    destruct (laneTag p); [|by apply elem_of_nil in Hm].
    by apply list_elem_of_singleton in Hm as ->.
  - intros i p c Hp Hc. pose proof (commit_rail now posts i p c Hp Hc) as Hrail.
    destruct (laneTag p) as [t|]; [|done].
    destruct Hrail as (j & t' & Hj & _ & Hbr & Hx).
    exists j, (tagBranch L0 (length (sortedTags (publishedPosts posts))) j t').
    split_and!; try done.
    + unfold g, mapPostsToGraph, mapPostsToGraphWith. cbv zeta. cbn [branches].
      unfold makeBranches. simpl. by rewrite list_lookup_imap, Hj.
    + rewrite Hx. simpl. apply lookup_lt_Some in Hj.
      assert (0 < inject_Z (Z.of_nat (length (sortedTags (publishedPosts posts)))
                            - Z.of_nat j))%Q
        by (change 0%Q with (inject_Z 0); rewrite <- Zlt_Qlt; lia).
      lra.
Qed.

(** X17. When distinct first tags of the non-draft records have distinct
    slugs, the commit of a record with a non-empty primary tag is on the
    rail of the branch named by that tag. *)
Theorem commit_on_own_rail now posts i p c t :
  (∀ q r u v, q ∈ publishedPosts posts → r ∈ publishedPosts posts →
     firstTag q = Some u → firstTag r = Some v → slug u = slug v → u = v) →
  publishedPosts posts !! i = Some p →
  commits (nodes (mapPostsToGraph now posts)) !! i = Some c →
  laneTag p = Some t →
  ∃ j b, branches (mapPostsToGraph now posts) !! S j = Some b
         ∧ branch_name b = t
         ∧ branch_id b = commit_branch c
         ∧ commit_x c = branch_x b.
Proof.
  intros Hinj Hp Hc Hlane.
  pose proof (commit_rail now posts i p c Hp Hc) as Hrail.
  rewrite Hlane in Hrail. destruct Hrail as (j & t' & Hj & Hs & Hbr & Hx).
  assert (firstTag p = Some t) as Hfirst.
  { unfold laneTag in Hlane. destruct (firstTag p) as [u|]; [|done].
    destruct (truthy u); [|done]. congruence. }
  assert (t' = t) as ->.
  { apply list_elem_of_lookup_2, sortedTags_spec in Hj as (q & Hq & Hqt).
    eapply (Hinj q p); [done|by eapply list_elem_of_lookup_2|done..]. }
  exists j, (tagBranch L0 (length (sortedTags (publishedPosts posts))) j t).
  split_and!; try done.
  unfold mapPostsToGraph, mapPostsToGraphWith. cbv zeta. cbn [branches].
  unfold makeBranches. simpl. by rewrite list_lookup_imap, Hj.
Qed.

Lemma elem_of_separatorsAfter L prev i rest s :
  s ∈ separatorsAfter L prev i rest →
  ∃ k, (k < length rest)%nat
       ∧ separator_y s = (row_y L (i + k) - ROW_HEIGHT L / 2)%Q
       ∧ separator_x s = 0%Q.
Proof.
  revert prev i. induction rest as [|cur rest IH]; intros prev i; simpl.
  - intros Hs. by apply elem_of_nil in Hs.
  - intros [Hs|Hs]%elem_of_app.
    + exists 0%nat. rewrite Nat.add_0_r. split; [lia|].
      unfold separatorBetween in Hs.
      repeat case_bool_decide; simpl in Hs;
        try (by apply elem_of_nil in Hs);
        by apply list_elem_of_singleton in Hs as ->.
    + apply IH in Hs as (k & Hk & Hy & Hx). exists (S k).
      rewrite Nat.add_succ_r. split; [lia|done].
Qed.

Lemma row_y_default (k : nat) :
  (row_y L0 k == inject_Z (24 + 48 * Z.of_nat k))%Q.
Proof. unfold row_y, num, Qeq. simpl. lia. Qed.

(** X18. Every separator lies strictly between two adjacent rows of
    commits, at [x = 0]: for some [i] from 1 up to the last row, above row
    [i] and below row [i - 1]. *)
Theorem separators_between_rows now posts s :
  s ∈ separators (nodes (mapPostsToGraph now posts)) →
  ∃ i, (1 ≤ i < length (publishedPosts posts))%nat
       ∧ (row_y L0 (i - 1) < separator_y s)%Q
       ∧ (separator_y s < row_y L0 i)%Q
       ∧ separator_x s = 0%Q.
Proof.
  intros Hs. destruct (graph_shape L0 now posts) as (_ & _ & _ & Hss & _).
  unfold mapPostsToGraph in Hs. rewrite Hss in Hs. unfold expectedSeparators in Hs.
  destruct (publishedPosts posts) as [|first rest]; [by apply elem_of_nil in Hs|].
  apply elem_of_separatorsAfter in Hs as (k & Hk & Hy & Hx).
  exists (S k). simpl. rewrite Nat.sub_0_r. split; [lia|].
  rewrite Hy. change (1 + k)%nat with (S k).
  rewrite (row_y_default (S k)), (row_y_default k). simpl.
  assert (inject_Z (24 + 48 * Z.of_nat (S k)) == inject_Z (24 + 48 * Z.of_nat k) + 48)%Q
    as Hstep.
  { rewrite <- (inject_Z_plus _ 48). f_equiv. lia. }
  rewrite Hstep. clear Hstep.
  generalize (inject_Z (24 + 48 * Z.of_nat k)) as q. intros q.
  assert (48 / 2 == 24)%Q as -> by reflexivity.
  split_and!; [lra|lra|done].
Qed.

Lemma palette_lookup i :
  ∃ c, palette !! (i mod length palette)%nat = Some c ∧ c ≠ "#6b7280".
Proof.
  assert (i mod length palette < 8)%nat as Hlt by (apply Nat.mod_upper_bound; done).
  destruct (i mod length palette)%nat as [|[|[|[|[|[|[|[|n]]]]]]]];
    simpl; try (by eexists); lia.
Qed.

(** X19. A tag branch of rank [i] has the palette colour [i mod 8], never
    the grey of the main branch, and two ranks have the same colour
    exactly when they agree modulo 8. *)
Theorem branch_colours now posts :
  (∀ i b, branches (mapPostsToGraph now posts) !! S i = Some b →
     branch_color b = getBranchColor i)
  ∧ (∀ i, getBranchColor i ∈ palette ∧ getBranchColor i ≠ "#6b7280")
  ∧ (∀ i j, getBranchColor i = getBranchColor j ↔ (i mod 8 = j mod 8)%nat).
Proof.
  split_and!.
  - intros i b. unfold mapPostsToGraph, mapPostsToGraphWith. cbv zeta.
    cbn [branches]. unfold makeBranches. simpl.
    rewrite list_lookup_imap. destruct (_ !! i); [|done]. by intros [= <-].
  - intros i. unfold getBranchColor.
    destruct (palette_lookup i) as (c & Hc & Hgrey). rewrite Hc. simpl.
    split; [by eapply list_elem_of_lookup_2|done].
  - intros i j.
    destruct (palette_lookup i) as (c & Hc & _).
    destruct (palette_lookup j) as (d & Hd & _).
    assert (getBranchColor i = c) as -> by (unfold getBranchColor; by rewrite Hc).
    assert (getBranchColor j = d) as -> by (unfold getBranchColor; by rewrite Hd).
    change (length palette) with 8%nat in Hc, Hd. split.
    + intros ->. eapply NoDup_lookup; [|exact Hc|exact Hd].
      apply (bool_decide_unpack _). vm_compute. exact I.
    + intros Hmod. rewrite Hmod in Hc. congruence.
Qed.

End Rails.

(** ** The graph component *)

Section Component.

Context `{Runtime}.

Local Abbreviation L0 := LAYOUT_CONSTANTS.

Lemma node_y_first_pass L bm i l n :
  (∀ q t, q ∈ l → firstTag q = Some t → is_Some (bm !! slug t)) →
  n ∈ flat_mapi (postNodes L bm) i l →
  ∃ k, (k < length l)%nat ∧ node_y n = row_y L (i + k).
Proof.
  intros Hbm Hn. apply elem_of_flat_mapi in Hn as (k & p & Hp & Hn).
  exists k. split; [by eapply lookup_lt_Some|].
  destruct (addPost_emits L bm (i + k) p) as (c & Hc & Hnodes & _).
  { intros t. apply Hbm. by eapply list_elem_of_lookup_2. }
  rewrite Hnodes in Hn. apply elem_of_cons in Hn as [->|Hn].
  - simpl. apply Hc.
  - destruct (laneTag p); [|by apply elem_of_nil in Hn].
    by apply list_elem_of_singleton in Hn as ->.
Qed.

Lemma height_default now posts :
  (GitGraph.height (mapPostsToGraph now posts)
   == inject_Z (48 * Z.of_nat (length (nodes (mapPostsToGraph now posts))) + 48))%Q.
Proof. unfold GitGraph.height, num, Qeq. simpl. lia. Qed.

(** X20. Vertically, every node of the result lies inside the drawing of
    the component: its [y] is strictly positive and strictly below
    [height]. Nothing is said of [x]; a tag rail can lie left of
    [x = 0]. *)
Theorem nodes_within_height now posts n :
  n ∈ nodes (mapPostsToGraph now posts) →
  (0 < node_y n)%Q ∧ (node_y n < GitGraph.height (mapPostsToGraph now posts))%Q.
Proof.
  intros Hn. set (pub := publishedPosts posts).
  assert (length pub < length (nodes (mapPostsToGraph now posts)))%nat as Hlen.
  { rewrite (length_by_kind (nodes (mapPostsToGraph now posts))).
    destruct (graph_shape L0 now posts) as (Hc & _ & _ & _ & Hts & _).
    unfold mapPostsToGraph. fold pub in Hc, Hts. rewrite Hc, Hts.
    rewrite computeTodayY_default, todayNodes_cases. simpl. lia. }
  rewrite height_default. rewrite nodes_default in Hn. fold pub in Hn.
  remember (length (nodes (mapPostsToGraph now posts))) as N eqn:HN. clear HN.
  assert (∀ k, (k < length pub)%nat → (0 < row_y L0 k)%Q
            ∧ (row_y L0 k < inject_Z (48 * Z.of_nat N + 48))%Q) as Hrow.
  { intros k Hk. rewrite row_y_default. change 0%Q with (inject_Z 0).
    rewrite <- !Zlt_Qlt. lia. }
  apply elem_of_app in Hn as [[Hn|Hn]%elem_of_app|Hn].
  - apply node_y_first_pass in Hn as (k & Hk & ->);
      [|intros q t; apply branchMapOf_lookup]. by apply Hrow.
  - apply list_elem_of_fmap in Hn as (s & -> & Hs). simpl.
    unfold expectedSeparators in Hs.
    destruct pub as [|first rest] eqn:Hpub; [by apply elem_of_nil in Hs|].
    apply elem_of_separatorsAfter in Hs as (k & Hk & -> & _).
    destruct (Hrow (S k)) as [_ Hhigh]; [simpl; lia|].
    change (1 + k)%nat with (S k). rewrite row_y_default in *.
    assert (ROW_HEIGHT L0 / 2 == inject_Z 24)%Q as -> by reflexivity.
    unfold Qminus. rewrite <- inject_Z_opp, <- inject_Z_plus.
    change 0%Q with (inject_Z 0). rewrite <- !Zlt_Qlt in *. lia.
  - apply list_elem_of_singleton in Hn as ->. simpl.
    split; [done|]. change 24%Q with (inject_Z 24). rewrite <- Zlt_Qlt. lia.
Qed.

Lemma branchRanges_main_kept ns i (m : gmap string GitGraph.Range) :
  forEach_from (λ node (_ : nat) (ranges : gmap string GitGraph.Range),
     match node with
     | Commit c =>
         if negb (String.eqb (commit_branch c) "main") then
           let current :=
             default {| GitGraph.minY := Infinity; GitGraph.maxY := NegInfinity |}
                     (ranges !! commit_branch c) in
           <[commit_branch c :=
               {| GitGraph.minY :=
                    Math_min (GitGraph.minY current) (Finite (commit_y c));
                  GitGraph.maxY :=
                    Math_max (GitGraph.maxY current) (Finite (commit_y c)) |}]>
             ranges
         else ranges
     | _ => ranges
     end) i ns m !! "main" = m !! "main".
Proof.
  revert i m. induction ns as [|n ns IH]; intros i m; simpl; [done|].
  rewrite IH. destruct n as [c| | |]; try done.
  destruct (String.eqb_spec (commit_branch c) "main") as [Heq|Hne]; simpl; [done|].
  by rewrite lookup_insert_ne.
Qed.

(** X21. The range of the main rail does not depend on the posts: the
    last node is always the Today marker at [y = 24], so the rail always
    runs from 24 to 48. *)
Theorem main_rail_range now posts :
  GitGraph.branchRanges (mapPostsToGraph now posts) !! "main"
  = Some {| GitGraph.minY := Finite 24; GitGraph.maxY := Finite 48 |}.
Proof.
  unfold GitGraph.branchRanges, forEach. cbv zeta.
  rewrite branchRanges_main_kept, lookup_insert_eq.
  unfold GitGraph.lastNodeY. rewrite nodes_default, last_snoc. done.
Qed.

Lemma commitsOn_cons k n ns :
  commitsOn k (n :: ns)
  = match n with
    | Commit c =>
        if String.eqb (commit_branch c) k then c :: commitsOn k ns
        else commitsOn k ns
    | _ => commitsOn k ns
    end.
Proof. unfold commitsOn. by destruct n. Qed.

(** The range a rail ends with is the range it had, widened by every
    commit on it in turn. *)
Lemma branchRanges_lane ns i (m : gmap string GitGraph.Range) k :
  k ≠ "main" →
  forEach_from (λ node (_ : nat) (ranges : gmap string GitGraph.Range),
     match node with
     | Commit c =>
         if negb (String.eqb (commit_branch c) "main") then
           let current :=
             default {| GitGraph.minY := Infinity; GitGraph.maxY := NegInfinity |}
                     (ranges !! commit_branch c) in
           <[commit_branch c :=
               {| GitGraph.minY :=
                    Math_min (GitGraph.minY current) (Finite (commit_y c));
                  GitGraph.maxY :=
                    Math_max (GitGraph.maxY current) (Finite (commit_y c)) |}]>
             ranges
         else ranges
     | _ => ranges
     end) i ns m !! k
  = foldl (λ current c, widen current (commit_y c)) (m !! k) (commitsOn k ns).
Proof.
  intros Hk. revert i m. induction ns as [|n ns IH]; intros i m; [done|].
  simpl. rewrite IH, commitsOn_cons. destruct n as [c| | |]; try done.
  destruct (String.eqb_spec (commit_branch c) k) as [Heq|Hne].
  - rewrite (proj2 (String.eqb_neq _ _)) by congruence. simpl.
    by rewrite Heq, lookup_insert_eq.
  - destruct (String.eqb (commit_branch c) "main"); simpl; [done|].
    by rewrite lookup_insert_ne.
Qed.

Lemma last_default_irrel {A} (x : A) l d d' :
  List.last (x :: l) d = List.last (x :: l) d'.
Proof.
  revert x. induction l as [|y l IH]; intros x; [done|].
  change (List.last (y :: l) d = List.last (y :: l) d'). apply IH.
Qed.

Lemma widen_sorted a b (cs : list CommitNode) :
  (a <= b)%Q →
  Forall (λ c, (b < commit_y c)%Q) cs →
  StronglySorted (λ c c', (commit_y c < commit_y c')%Q) cs →
  foldl (λ current c, widen current (commit_y c))
        (Some {| GitGraph.minY := Finite a; GitGraph.maxY := Finite b |}) cs
  = Some {| GitGraph.minY := Finite a;
            GitGraph.maxY := Finite (List.last (commit_y <$> cs) b) |}.
Proof.
  intros Hab Hall Hsorted. revert b Hab Hall.
  induction Hsorted as [|c cs Hcs IH Hc]; intros b Hab Hall; [done|].
  apply Forall_cons in Hall as [Hbc Hall]. simpl foldl. unfold widen at 2. simpl.
  rewrite (proj2 (Qle_bool_iff a (commit_y c)))
    by (apply Qlt_le_weak; by eapply Qle_lt_trans).
  rewrite (proj2 (Qle_bool_iff b (commit_y c))) by (by apply Qlt_le_weak).
  rewrite IH; [|apply Qlt_le_weak; by eapply Qle_lt_trans|done].
  do 2 f_equal. change (list_fmap CommitNode Q commit_y cs) with (commit_y <$> cs).
  generalize (commit_y <$> cs) as ys. intros [|y ys]; [done|].
  f_equal. exact (last_default_irrel y ys (commit_y c) b).
Qed.

Lemma commit_rows_sorted now posts :
  StronglySorted (λ c c', (commit_y c < commit_y c')%Q)
                 (commits (nodes (mapPostsToGraph now posts))).
Proof.
  destruct (graph_shape L0 now posts) as (Hlen & Hcs & _).
  assert (∀ i c, commits (nodes (mapPostsToGraph now posts)) !! i = Some c →
            commit_y c = row_y L0 i) as Hy.
  { intros i c Hc.
    destruct (lookup_lt_is_Some_2 (publishedPosts posts) i) as [p Hp].
    { unfold mapPostsToGraph in Hc. rewrite <- Hlen. by eapply lookup_lt_Some. }
    destruct (Hcs i p Hp) as (c' & Hc' & Hf).
    assert (c' = c) as -> by (unfold mapPostsToGraph in Hc; congruence).
    apply Hf. }
  clear Hlen Hcs. revert Hy.
  generalize (commits (nodes (mapPostsToGraph now posts))) as cs.
  generalize 0%nat as base. intros base cs. revert base.
  assert (∀ base, (∀ i c, cs !! i = Some c → commit_y c = row_y L0 (base + i)) →
    StronglySorted (λ c c', (commit_y c < commit_y c')%Q) cs) as Hgen.
  { induction cs as [|c cs IH]; intros base Hy; constructor.
    - apply (IH (S base)). intros i c' Hc'. rewrite Nat.add_succ_comm.
      by apply (Hy (S i)).
    - apply Forall_forall. intros c' [i Hi]%list_elem_of_lookup.
      rewrite (Hy 0%nat c eq_refl), (Hy (S i) c' Hi).
      apply row_y_lt; [done|lia]. }
  intros base Hy. apply (Hgen 0%nat). intros i c Hc. by apply Hy.
Qed.

Lemma StronglySorted_list_filter {A} (R : A → A → Prop) (f : A → bool) l :
  StronglySorted R l → StronglySorted R (List.filter f l).
Proof.
  induction 1 as [|x l Hl IH Hx]; simpl; [constructor|].
  destruct (f x); [|done]. constructor; [done|].
  apply Forall_forall. intros y Hy.
  apply list_elem_of_In, filter_In in Hy as [Hy _].
  rewrite Forall_forall in Hx. by apply Hx, list_elem_of_In.
Qed.

(** X22. A rail other than the main one has a range exactly when some
    commit is on its branch, and the range then runs from the [y] of the
    first such commit to the [y] of the last. *)
Theorem lane_rail_ranges now posts k :
  k ≠ "main" →
  GitGraph.branchRanges (mapPostsToGraph now posts) !! k
  = match commitsOn k (nodes (mapPostsToGraph now posts)) with
    | [] => None
    | first :: rest =>
        Some {| GitGraph.minY := Finite (commit_y first);
                GitGraph.maxY :=
                  Finite (List.last (commit_y <$> rest) (commit_y first)) |}
    end.
Proof.
  intros Hk. unfold GitGraph.branchRanges, forEach. cbv zeta.
  rewrite branchRanges_lane by done.
  rewrite lookup_insert_ne by done. rewrite lookup_empty.
  pose proof (StronglySorted_list_filter _
    (λ c, String.eqb (commit_branch c) k) _ (commit_rows_sorted now posts)) as Hsorted.
  fold (commitsOn k (nodes (mapPostsToGraph now posts))) in Hsorted.
  destruct (commitsOn k (nodes (mapPostsToGraph now posts))) as [|first rest];
    [done|].
  apply StronglySorted_inv in Hsorted as [Hrest Hfirst].
  simpl foldl. unfold widen at 2. simpl.
  by apply widen_sorted; [apply Qle_refl|..].
Qed.

End Component.

(** ** Tooltips *)

Section Tooltips.

Context `{Runtime}.

Local Abbreviation L0 := LAYOUT_CONSTANTS.

(** The tooltip table maps a slug to the data of the last commit that
    has it. *)
Lemma commitMeta_lookup ns i (m : gmap string GitGraph.CommitMeta) k :
  forEach_from (λ node (_ : nat) (map : gmap string GitGraph.CommitMeta),
     match node with
     | Commit c =>
         <[commit_slug c :=
             {| GitGraph.meta_title := commit_title c;
                GitGraph.meta_summary := commit_summary c;
                GitGraph.meta_date := commit_date c |}]> map
     | _ => map
     end) i ns m !! k
  = match last (List.filter (λ c, String.eqb (commit_slug c) k) (commits ns)) with
    | Some c => Some (commitMeta c)
    | None => m !! k
    end.
Proof.
  revert i m. induction ns as [|n ns IH]; intros i m; [done|].
  simpl. rewrite IH. destruct n as [c| | |]; try done.
  change (commits (Commit c :: ns)) with (c :: commits ns). simpl.
  destruct (String.eqb_spec (commit_slug c) k) as [Heq|Hne].
  - rewrite last_cons.
    destruct (last (List.filter _ (commits ns))); [done|].
    by rewrite Heq, lookup_insert_eq.
  - destruct (last (List.filter _ (commits ns))); [done|].
    by rewrite lookup_insert_ne.
Qed.

Lemma last_meta_related (cs : list CommitNode) (ps : list Post) k :
  Forall2 (λ c p, commit_slug c = post_slug p ∧ commitMeta c = postMeta p) cs ps →
  commitMeta <$> last (List.filter (λ c, String.eqb (commit_slug c) k) cs)
  = postMeta <$> last (withSlug k ps).
Proof.
  unfold withSlug. induction 1 as [|c p cs ps [Hslug Hmeta] Hrest IH]; [done|].
  simpl. rewrite Hslug. destruct (String.eqb (post_slug p) k); [|done].
  rewrite !last_cons.
  destruct (last (List.filter _ cs)), (last (List.filter _ ps));
    simpl in *; congruence.
Qed.

Lemma withSlug_unique (ps : list Post) p :
  NoDup (post_slug <$> ps) → p ∈ ps → withSlug (post_slug p) ps = [p].
Proof.
  unfold withSlug. induction ps as [|q ps IH]; intros Hnd Hp.
  - by apply elem_of_nil in Hp.
  - rewrite fmap_cons in Hnd. apply NoDup_cons in Hnd as [Hq Hnd]. simpl.
    apply elem_of_cons in Hp as [->|Hp].
    + rewrite String.eqb_refl. f_equal. apply filter_none. intros r Hr.
      apply String.eqb_neq. intros Heq. apply Hq. rewrite <- Heq.
      by apply list_elem_of_fmap_2.
    + rewrite (proj2 (String.eqb_neq _ _)); [by apply IH|].
      intros Heq. apply Hq. rewrite Heq. by apply list_elem_of_fmap_2.
Qed.

(** X23. The tooltip table maps every slug to the title, summary and date
    of the last non-draft post with that slug, and nothing else. Every
    Merge node finds an entry under its slug, and when the slugs are
    pairwise distinct the entry of a post is its own data. *)
Theorem tooltip_table now posts :
  let g := mapPostsToGraph now posts in
  let pub := publishedPosts posts in
  (∀ k, GitGraph.commitMetaBySlug g !! k = postMeta <$> last (withSlug k pub))
  ∧ (∀ m, m ∈ merges (nodes g) →
       is_Some (GitGraph.commitMetaBySlug g !! merge_slug m))
  ∧ (NoDup (post_slug <$> pub) →
     ∀ p, p ∈ pub → GitGraph.commitMetaBySlug g !! post_slug p = Some (postMeta p)).
Proof.
  intros g pub.
  destruct (graph_shape L0 now posts) as (Hlen & Hcs & Hms & _).
  fold pub in Hlen, Hcs, Hms.
  change (mapPostsToGraphWith L0 now posts) with g in Hlen, Hcs, Hms.
  assert (∀ k, GitGraph.commitMetaBySlug g !! k = postMeta <$> last (withSlug k pub))
    as Htable.
  { intros k. unfold GitGraph.commitMetaBySlug, forEach.
    rewrite commitMeta_lookup, lookup_empty.
    rewrite <- (last_meta_related (commits (nodes g)) pub k).
    - by destruct (last _).
    - apply Forall2_same_length_lookup_2; [done|].
      intros i c p Hc Hp. destruct (Hcs i p Hp) as (c' & Hc' & Hf).
      assert (c' = c) as -> by congruence.
      destruct Hf as (_ & _ & Hs & Ht & Hsum & Hd & _).
      split; [done|]. unfold commitMeta, postMeta. by rewrite Ht, Hsum, Hd. }
  split_and!; [done| |].
  - intros m Hm. rewrite Htable. rewrite Hms in Hm.
    apply elem_of_flat_mapi in Hm as (i & p & Hp & Hm). unfold mergesOf in Hm.
    destruct (laneTag p); [|by apply elem_of_nil in Hm].
    apply list_elem_of_singleton in Hm as ->. simpl.
    assert (p ∈ withSlug (post_slug p) pub) as Hin.
    { unfold withSlug. apply list_elem_of_In, filter_In. split.
      - apply list_elem_of_In. by eapply list_elem_of_lookup_2.
      - apply String.eqb_refl. }
    destruct (withSlug (post_slug p) pub) as [|q qs] using rev_ind.
    + by apply elem_of_nil in Hin.
    + rewrite last_snoc. simpl. by eexists.
  - intros Hnd p Hp. by rewrite Htable, withSlug_unique.
Qed.

End Tooltips.

(** ** The summary shown in a tooltip *)

Lemma Array_slice_take {A : Type} (n : nat) (l : list A) :
  Array_slice 0 (Z.of_nat n) l = take n l.
Proof.
  unfold Array_slice. cbv zeta.
  rewrite (proj2 (Z.ltb_ge 0 0)) by lia.
  rewrite (proj2 (Z.ltb_ge (Z.of_nat n) 0)) by lia.
  rewrite (Z.min_l 0) by lia. rewrite Z.sub_0_r.
  change (Z.to_nat 0) with 0%nat. rewrite drop_0.
  destruct (decide (n ≤ length l)%nat).
  - by rewrite Z.min_l, Nat2Z.id by lia.
  - rewrite Z.min_r, Nat2Z.id by lia. by rewrite !take_ge by lia.
Qed.

Lemma trimEnd_prefix (s : JsString) : trimEnd s `prefix_of` s.
Proof.
  induction s as [|c s [rest Hrest]]; simpl.
  - by exists [].
  - destruct (trimEnd s) as [|c' s'] eqn:Ht.
    + destruct (isWhiteSpace c).
      * apply prefix_nil.
      * by apply prefix_cons, prefix_nil.
    + apply prefix_cons. by exists rest.
Qed.

(** X24. Counted in UTF-16 code units, the summary shown in a tooltip is
    never empty and never longer than 80. An absent summary, and one that
    is empty once trimmed, is shown as a fixed text; a summary whose
    trimmed text has 1 to 80 code units is shown trimmed; a longer one is
    cut: what is shown is at most 77 of its first code units followed by
    three dots. *)
Theorem formatSummary_fits summary :
  let shown := GitGraph.formatSummary summary in
  (1 ≤ length shown ≤ 80)%nat
  ∧ (∀ s, summary = Some s → (80 < length (trim s))%nat →
       ∃ kept, shown = kept ++ units "..."
               ∧ kept `prefix_of` trim s
               ∧ (length kept ≤ 77)%nat)
  ∧ (∀ s, summary = Some s → (1 ≤ length (trim s) ≤ 80)%nat → shown = trim s)
  ∧ (match summary with Some s => trim s = [] | None => True end →
     shown = units "No summary available.").
Proof.
  intros shown. unfold shown, GitGraph.formatSummary.
  set (normalized := match summary with
                     | Some s => if nonEmpty (trim s) then trim s else []
                     | None => []
                     end).
  assert (∀ l : JsString, nonEmpty l = true ↔ (0 < length l)%nat) as Hne.
  { intros [|c l]; simpl; split; (done || lia). }
  assert (∀ s, summary = Some s → (1 ≤ length (trim s))%nat →
            normalized = trim s) as Hnorm.
  { intros s -> Hlen. unfold normalized. by rewrite (proj2 (Hne _)) by lia. }
  change 77%Z with (Z.of_nat 77). rewrite Array_slice_take.
  pose proof (trimEnd_prefix (take 77 normalized)) as Htrim.
  pose proof (prefix_length _ _ Htrim) as Hlen. rewrite length_take in Hlen.
  split; [|split; [|split]].
  - destruct (nonEmpty normalized) eqn:Htruthy; simpl; [|lia].
    apply Hne in Htruthy.
    destruct (Nat.leb_spec (length normalized) 80); [lia|].
    rewrite length_app. simpl. lia.
  - intros s Hs Hlong. rewrite (Hnorm s Hs) in * by lia.
    rewrite (proj2 (Hne _)) by lia. simpl.
    rewrite (proj2 (Nat.leb_gt _ _)) by lia.
    exists (trimEnd (take 77 (trim s))). split_and!; [done| |lia].
    etrans; [exact Htrim|]. apply prefix_take.
  - intros s Hs Hlen'. rewrite (Hnorm s Hs) by lia.
    rewrite (proj2 (Hne _)) by lia. simpl.
    by rewrite (proj2 (Nat.leb_le _ _)) by lia.
  - intros Hnone.
    assert (normalized = []) as ->; [|done].
    unfold normalized. destruct summary as [s|]; [|done]. by rewrite Hnone.
Qed.

(** ** The post list *)

Lemma sublist_List_filter {A : Type} (f : A → bool) (l : list A) :
  sublist (List.filter f l) l.
Proof.
  induction l as [|a l IH]; simpl; [constructor|].
  destruct (f a); by constructor.
Qed.

Lemma includes_empty (s : string) : ListLayout.includes "" s = true.
Proof. by destruct s. Qed.

Section PostListDisplay.

Context `{Runtime}.

(** X27. The post list filters by category exactly as the home page
    does. While a search text or a valid tag is set, it shows the posts
    found, a sublist of the posts, and no pagination. Otherwise it shows
    the initial posts if there are any, and else, when lower-casing the
    empty text gives the empty text, every post. *)
Theorem listLayout_display development posts initial activeTag searchValue :
  let found :=
    ListLayout.filteredBlogPosts development posts activeTag searchValue in
  let shown :=
    ListLayout.displayPosts development posts initial activeTag searchValue in
  ListLayout.categoryFilteredPosts development posts activeTag
  = Home.filteredPosts development posts (Home.activeTag activeTag)
  ∧ sublist found posts
  ∧ (ListLayout.isFiltering searchValue activeTag = true →
     shown = found
     ∧ ∀ pagination,
         ListLayout.showPagination pagination searchValue activeTag = false)
  ∧ (ListLayout.isFiltering searchValue activeTag = false →
     (initial ≠ [] → shown = initial)
     ∧ (initial = [] → toLowerCase "" = "" → shown = posts)).
Proof.
  intros found shown.
  assert (ListLayout.categoryFilteredPosts development posts activeTag
          = Home.filteredPosts development posts (Home.activeTag activeTag))
    as Hsame.
  { unfold ListLayout.categoryFilteredPosts, Home.filteredPosts, Home.activeTag,
      ListLayout.isValidTag, ListLayout.ALL_CATEGORIES, Home.ALL_CATEGORIES.
    destruct activeTag as [t|]; [|done].
    destruct (truthy t && bool_decide (t ∈ Categories.ALLOWED_CATEGORIES)); [|done].
    simpl. apply filter_ext. intros post.
    destruct (String.eqb_spec
                (Categories.getPostCategory development (post_tags post)).1 t)
      as [Heq|Hne].
    - apply bool_decide_eq_true. by rewrite Heq.
    - apply bool_decide_eq_false. congruence. }
  assert (sublist (ListLayout.categoryFilteredPosts development posts activeTag)
                  posts) as Hsub.
  { unfold ListLayout.categoryFilteredPosts.
    destruct (negb _); [done|]. apply sublist_List_filter. }
  split_and!; [done| | |].
  - unfold found, ListLayout.filteredBlogPosts.
    etrans; [apply sublist_List_filter|done].
  - intros Hfilter. split.
    + unfold shown, ListLayout.displayPosts.
      unfold ListLayout.isFiltering in Hfilter.
      destruct (truthy searchValue), (ListLayout.isValidTag activeTag);
        try done; by rewrite ?andb_false_r.
    + intros [total|]; [|done]. unfold ListLayout.showPagination.
      by rewrite Hfilter, andb_false_r.
  - intros Hfilter. unfold ListLayout.isFiltering in Hfilter.
    apply orb_false_iff in Hfilter as [Hsearch Htag].
    unfold shown, ListLayout.displayPosts. rewrite Hsearch, Htag. split.
    + intros Hinitial. by destruct initial.
    + intros -> Hlower. simpl.
      unfold ListLayout.filteredBlogPosts, ListLayout.categoryFilteredPosts.
      rewrite Htag. simpl.
      assert (searchValue = "") as -> by (by destruct searchValue).
      rewrite Hlower. clear. induction posts as [|p ps IH]; [done|].
      simpl. rewrite includes_empty. by f_equal.
Qed.

End PostListDisplay.

(** ** Concrete runs *)

Lemma localeCompare_le a b : (Js.localeCompare a b ≤ 0)%Z ↔ String.le a b.
Proof.
  unfold Js.localeCompare, String.le, String.leb.
  destruct (String.compare a b); simpl; split; intros; (done || lia).
Qed.

Lemma localeCompare_total a b :
  (0 < Js.localeCompare a b)%Z → (Js.localeCompare b a ≤ 0)%Z.
Proof.
  intros Hab. apply localeCompare_le.
  destruct (String.le_total a b) as [Hle|Hle]; [|done].
  apply localeCompare_le in Hle. lia.
Qed.

Lemma localeCompare_trans a b c :
  (Js.localeCompare a b ≤ 0)%Z → (Js.localeCompare b c ≤ 0)%Z →
  (Js.localeCompare a c ≤ 0)%Z.
Proof.
  rewrite !localeCompare_le. apply transitivity.
Qed.

Lemma noMainTag_check `{Runtime} pub :
  forallb (λ p, match firstTag p with
                | Some t => negb (String.eqb (slug t) "main")
                | None => true
                end) pub = true →
  noMainTag pub.
Proof.
  intros Hall p t Hp Ht. rewrite forallb_forall in Hall.
  apply list_elem_of_In, Hall in Hp. rewrite Ht in Hp.
  apply negb_true_iff, String.eqb_neq in Hp. done.
Qed.

Lemma noMainLane_check `{Runtime} pub :
  forallb (λ p, match laneTag p with
                | Some t => negb (String.eqb (slug t) "main")
                | None => true
                end) pub = true →
  noMainLane pub.
Proof.
  intros Hall p t Hp Ht. rewrite forallb_forall in Hall.
  apply list_elem_of_In, Hall in Hp. rewrite Ht in Hp.
  apply negb_true_iff, String.eqb_neq in Hp. done.
Qed.

Lemma hyphenFreeLanes_check `{Runtime} pub :
  forallb (λ p, match laneTag p with
                | Some t => no_hyphen (slug t)
                | None => true
                end) pub = true →
  hyphenFreeLanes pub.
Proof.
  intros Hall p t Hp Ht. rewrite forallb_forall in Hall.
  apply list_elem_of_In, Hall in Hp. by rewrite Ht in Hp.
Qed.

(** Splits a concrete newest-first goal into its pairwise comparisons. *)
Ltac newest_first :=
  unfold newestFirst;
  repeat match goal with
         | |- StronglySorted _ _ => constructor
         | |- Forall _ _ => constructor
         end;
  unfold notNewer; vm_compute;
  first [ left; reflexivity | right; split; [reflexivity|lia] ].

#[local] Existing Instance Js.runtime.

Lemma C1_witness :
  let cs := commits (nodes (mapPostsToGraph Js.today0 Js.timeline)) in
  (∃ c, cs !! 1%nat = Some c
        ∧ commit_slug c = "p2" ∧ commit_title c = "p2"
        ∧ commit_date c = "2024-11-15"
        ∧ commit_y c = (PADDING_TOP LAYOUT_CONSTANTS
                        + num 1 * ROW_HEIGHT LAYOUT_CONSTANTS)%Q)
  ∧ (∃ ci cj, cs !! 0%nat = Some ci ∧ cs !! 1%nat = Some cj
              ∧ (commit_y ci < commit_y cj)%Q).
Proof.
  intros cs.
  destruct (C1_one_commit_per_published_record Js.today0 Js.timeline)
    as (_ & _ & _ & Hrec & Hinc).
  split.
  - exact (Hrec 1%nat (Js.post "p2" "2024-11-15" ["Apple"]) eq_refl).
  - eexists _, _. split; [vm_compute; reflexivity|].
    split; [vm_compute; reflexivity|].
    apply (Hinc 0%nat 1%nat); [lia|vm_compute; reflexivity..].
Defined.

(** A Commit whose branch is ["main"] and which has a paired Merge: the
    post is tagged ["main"], the slug of that tag is ["main"], and the
    callback takes the tagged path. *)
Lemma C2_counterexample :
  let ns := nodes (mapPostsToGraph Js.today0 Js.taggedMain) in
  ∃ c, commits ns !! 0%nat = Some c
       ∧ commit_branch c = "main"
       ∧ length (pairedMerges c ns) = 1%nat.
Proof.
  eexists. split; [vm_compute; reflexivity|]. split; vm_compute; reflexivity.
Qed.

Lemma C2_witness :
  let ns := nodes (mapPostsToGraph Js.today0 Js.timeline) in
  (∃ c, commits ns !! 0%nat = Some c
        ∧ commit_slug c = "p1"
        ∧ commit_branch c = "zebra" ∧ length (pairedMerges c ns) = 1%nat)
  ∧ (∃ c, commits ns !! 2%nat = Some c
          ∧ commit_slug c = "p3"
          ∧ commit_branch c = "main" ∧ pairedMerges c ns = [])
  ∧ (∀ c, c ∈ commits ns →
       (commit_branch c ≠ "main" ↔ length (pairedMerges c ns) = 1%nat)
       ∧ (commit_branch c = "main" ↔ pairedMerges c ns = [])).
Proof.
  intros ns.
  destruct (C2_merge_iff_lane Js.today0 Js.timeline) as [Hrec Hiff].
  split_and!.
  - exact (Hrec 0%nat (Js.post "p1" "2024-12-20" ["zebra"]) eq_refl).
  - exact (Hrec 2%nat (Js.post "p3" "2023-11-01" []) eq_refl).
  - apply Hiff, noMainLane_check. vm_compute. reflexivity.
Defined.

Lemma C3_witness :
  ∃ bs,
    branches (mapPostsToGraph Js.today0 Js.timeline)
    = {| branch_id := "main"; branch_name := "main";
         branch_color := "#6b7280"; branch_x := 150 |} :: bs
    ∧ "zebra" ∈ branch_name <$> bs
    ∧ ¬ "mango" ∈ branch_name <$> bs
    ∧ StronglySorted
        (λ a b, (Js.localeCompare (Js.toLowerCase a) (Js.toLowerCase b) ≤ 0)%Z)
        (branch_name <$> bs)
    ∧ (∃ b0 b1, bs !! 0%nat = Some b0 ∧ bs !! 1%nat = Some b1
                ∧ (branch_x b0 < branch_x b1)%Q ∧ (branch_x b1 < 150)%Q).
Proof.
  destruct (C3_branch_order Js.today0 Js.timeline)
    as (bs & Hb & _ & Hel & Hsorted & _ & Hx).
  exists bs. split; [exact Hb|]. split_and!.
  - apply Hel. exists (Js.post "p1" "2024-12-20" ["zebra"]).
    split; [by repeat constructor|]. split; [discriminate|reflexivity].
  - intros Hin. apply Hel in Hin as (p & Hp & Hd & Ht).
    unfold Js.timeline in Hp.
    repeat (apply elem_of_cons in Hp as [->|Hp]);
      [discriminate Ht..|by apply Hd|by apply elem_of_nil in Hp].
  - apply Hsorted; [exact localeCompare_total|exact localeCompare_trans].
  - assert (bs = tail (branches (mapPostsToGraph Js.today0 Js.timeline))) as Hbs
      by (by rewrite Hb).
    eexists _, _. split; [rewrite Hbs; vm_compute; reflexivity|].
    split; [rewrite Hbs; vm_compute; reflexivity|].
    apply (Hx 0%nat 1%nat); [lia|rewrite Hbs; vm_compute; reflexivity..].
Defined.

Lemma C4_witness :
  separators (nodes (mapPostsToGraph Js.today0 Js.taggedMain)) = []
  ∧ (λ s, (separator_kind s, separator_label s, Qred (separator_y s)))
      <$> separators (nodes (mapPostsToGraph Js.today0 Js.timeline))
    = [ (month, "Nov 2024", 48%Q); (year, "2023", 96%Q) ].
Proof.
  split.
  - destruct (C4_separators Js.today0 Js.taggedMain)
      as (_ & _ & _ & _ & _ & Hfew & _).
    apply Hfew. vm_compute. lia.
  - destruct (C4_separators Js.today0 Js.timeline) as (_ & _ & Hss & _).
    rewrite Hss. vm_compute. reflexivity.
Defined.

Lemma C5_witness :
  (∃ i p,
     list_find (λ p, (Js.startOfDay (post_date p) ≤ today_time Js.today0)%Z)
               (publishedPosts Js.timeline) = Some (i, p)
     ∧ todays (nodes (mapPostsToGraph Js.today0 Js.timeline))
       = markerAt Js.today0 (row_y LAYOUT_CONSTANTS i))
  ∧ todays (nodes (mapPostsToGraph (Js.clock "2024-06-01") Js.timeline))
    = markerAt (Js.clock "2024-06-01") (PADDING_TOP LAYOUT_CONSTANTS).
Proof.
  split.
  - destruct (C5_today_marker LAYOUT_CONSTANTS Js.today0 Js.timeline)
      as (_ & _ & Hafter & _).
    eapply Hafter; [reflexivity|]. vm_compute. reflexivity.
  - destruct (C5_today_marker LAYOUT_CONSTANTS (Js.clock "2024-06-01") Js.timeline)
      as (_ & _ & _ & Hbefore & _).
    eapply Hbefore; [reflexivity|]. vm_compute. discriminate.
Defined.

(** Two posts with the same slug, newest first: their Merge nodes share
    the id ["merge-x"]. *)
Lemma C6_counterexample :
  newestFirst (publishedPosts Js.sameSlug)
  ∧ ¬ NoDup (node_id <$> nodes (mapPostsToGraph Js.today0 Js.sameSlug)).
Proof.
  split.
  - newest_first.
  - intros Hnd. apply (bool_decide_pack _) in Hnd. vm_compute in Hnd. exact Hnd.
Qed.

(** Distinct slugs do not suffice: a hyphen in a lane id lets two Commit
    nodes share the id ["commit-a-b-c"]. *)
Example commit_id_collision :
  let pub := publishedPosts Js.hyphenated in
  newestFirst pub
  ∧ NoDup (post_slug <$> pub)
  ∧ commit_id <$> commits (nodes (mapPostsToGraph Js.today0 Js.hyphenated))
    = [ "commit-a-b-c"; "commit-a-b-c" ].
Proof.
  split_and!.
  - newest_first.
  - apply (bool_decide_unpack _). vm_compute. exact I.
  - vm_compute. reflexivity.
Qed.

Lemma C6_witness :
  NoDup (node_id <$> nodes (mapPostsToGraph Js.today0 Js.timeline)).
Proof.
  apply C6_unique_node_ids.
  - change (publishedPosts Js.timeline) with (take 3 Js.timeline).
    newest_first.
  - apply (bool_decide_unpack _). vm_compute. exact I.
  - apply hyphenFreeLanes_check. vm_compute. reflexivity.
Defined.

(** Two tagged posts with the same slug: the node ["merge-x"] is the
    target of two edges. *)
Lemma C7_counterexample :
  let g := mapPostsToGraph Js.today0 Js.sameSlug in
  ∃ n, nodes g !! 1%nat = Some n
       ∧ node_id n = "merge-x"
       ∧ length (List.filter (λ e, String.eqb (edge_to e) (node_id n)) (edges g))
         = 2%nat.
Proof.
  eexists. split; [vm_compute; reflexivity|]. split; vm_compute; reflexivity.
Qed.

Lemma C7_witness :
  NoDup (edge_to <$> edges (mapPostsToGraph Js.today0 Js.timeline)).
Proof.
  destruct (C7_edges_connect_pairs Js.today0 Js.timeline) as [_ Hin].
  apply Hin. apply (bool_decide_unpack _). vm_compute. exact I.
Defined.

(** A post tagged ["main"]: two branches of the result have the id
    ["main"]. *)
Lemma C8_counterexample :
  length (List.filter (λ b, String.eqb (branch_id b) "main")
                      (branches (mapPostsToGraph Js.today0 Js.taggedMain)))
  = 2%nat.
Proof. vm_compute. reflexivity. Qed.

Lemma C8_witness :
  List.filter (λ b, String.eqb (branch_id b) "main")
              (branches (mapPostsToGraph Js.today0 Js.timeline))
  = [ {| branch_id := "main"; branch_name := "main";
         branch_color := "#6b7280"; branch_x := 150 |} ].
Proof.
  apply C8_one_main_branch, noMainTag_check. vm_compute. reflexivity.
Defined.

(** With [PADDING_TOP = 0] the marker of the empty list is suppressed: the
    result has no node, where the default constants give one. *)
Lemma C9_counterexample :
  node_id <$> nodes (mapPostsToGraphWith Js.flushTop Js.today0 []) = []
  ∧ node_id <$> nodes (mapPostsToGraph Js.today0 []) = ["today-marker"].
Proof. split; vm_compute; reflexivity. Qed.

Lemma C9_witness :
  let g := mapPostsToGraphWith Js.compact Js.today0 Js.timeline in
  let g0 := mapPostsToGraph Js.today0 Js.timeline in
  node_id <$> nodes g = node_id <$> nodes g0
  ∧ length (nodes g) = length (nodes g0)
  ∧ edges g = edges g0
  ∧ length (edges g) = length (edges g0)
  ∧ branch_id <$> branches g = branch_id <$> branches g0.
Proof.
  apply C9_constants_move_coordinates_only. vm_compute. reflexivity.
Defined.

Lemma C10_witness :
  mapPostsToGraph Js.today0
    [ {| post_slug := "d"; post_title := "d"; post_summary := None;
         post_date := "2024-01-01"; post_tags := Some ["life"];
         post_draft := Some true |} ]
  = {| branches := [ {| branch_id := "main"; branch_name := "main";
                        branch_color := "#6b7280"; branch_x := 150 |} ];
       nodes := [ Today {| today_id := "today-marker";
                           today_date := "2025-01-01";
                           today_x := 0; today_y := 24 |} ];
       edges := [] |}.
Proof.
  apply C10_nothing_published.
  intros p Hp. apply list_elem_of_singleton in Hp. rewrite Hp. reflexivity.
Defined.

(** The separator scenario of the specification: a month separator
    between the first two posts, a year separator between the last two. *)
Example separator_scenario :
  (λ s, (separator_kind s, separator_label s, Qred (separator_y s)))
    <$> separators (nodes (mapPostsToGraph Js.today0 Js.timeline))
  = [ (month, "Nov 2024", 48%Q); (year, "2023", 96%Q) ].
Proof. vm_compute. reflexivity. Qed.

(** The branch-order scenario of the specification. *)
Example branch_order_scenario :
  branch_name <$> branches (mapPostsToGraph Js.today0
    [ Js.post "a" "2024-03-01" ["zebra"]; Js.post "b" "2024-02-01" ["Apple"];
      Js.post "c" "2024-01-01" ["mango"] ])
  = [ "main"; "Apple"; "mango"; "zebra" ].
Proof. vm_compute. reflexivity. Qed.

(** ** Concrete runs of the further properties *)

Lemma getPostCategory_single_tag_witness :
  (Categories.getPostCategory false (Some ["Life"])).1 = "life".
Proof.
  apply (getPostCategory_single_tag false (Some ["Life"]) "life"); [discriminate|].
  exists "Life". split; [reflexivity|]. split; [reflexivity|].
  by repeat constructor.
Defined.

Lemma getPostCategory_warnings_witness :
  (Categories.getPostCategory true (Some ["Life"])).2 = []
  ∧ length (Categories.getPostCategory true (Some ["life"; "fitness"])).2 = 1%nat.
Proof.
  split.
  - destruct (getPostCategory_warnings (Some ["Life"])) as (_ & Hquiet & _).
    apply Hquiet. exists "Life". split; [reflexivity|]. by repeat constructor.
  - destruct (getPostCategory_warnings (Some ["life"; "fitness"])) as (_ & _ & Hone).
    apply Hone. intros (t & Ht & _). discriminate.
Defined.

Lemma validateFile_valid_iff_witness :
  ValidateCategories.validateFile (units "run.mdx") (fileTagged "fitness")
  = ValidateCategories.Valid
  ∧ (∃ rest, units "b.mdx: Missing 'tags' in frontmatter"
             = units "b.mdx" ++ units ": " ++ rest)
  ∧ (∃ rest, fileTagged "fitness" = units "---" ++ [10%N] ++ rest)
  ∧ ValidateCategories.validateFile (units "walk.mdx")
      (units "---" ++ [10%N] ++ units "tags: [" ++ [39%N] ++ units "life"
       ++ [39%N] ++ units "]" ++ [10%N] ++ units "---" ++ units " and more")
    = ValidateCategories.Valid.
Proof.
  assert (ValidateCategories.validateFile (units "run.mdx") (fileTagged "fitness")
          = ValidateCategories.Valid) as Hvalid.
  { destruct (validateFile_valid_iff (units "run.mdx") (fileTagged "fitness"))
      as (Hiff & _).
    apply Hiff. exists (units "fitness").
    split; [vm_compute; reflexivity|]. by repeat constructor. }
  split_and!.
  - exact Hvalid.
  - destruct (validateFile_valid_iff (units "b.mdx") blockFile) as (_ & Herr & _).
    apply Herr. vm_compute. reflexivity.
  - destruct (validateFile_valid_iff (units "run.mdx") (fileTagged "fitness"))
      as (_ & _ & Hopens & _).
    exact (Hopens Hvalid).
  - destruct (validateFile_valid_iff (units "walk.mdx")
                (units "---" ++ [10%N] ++ units "tags: [" ++ [39%N] ++ units "life"
                 ++ [39%N] ++ units "]" ++ [10%N] ++ units "---"
                 ++ units " and more"))
      as (_ & _ & _ & Hflow).
    apply (Hflow (units "life") [39%N] (units " and more"));
      [by repeat constructor|by repeat constructor|reflexivity].
Defined.

(** A tag list in block style is not seen, and a quoted blank in a flow
    list is not counted as a tag. *)
Example block_style_rejected :
  ValidateCategories.validateFile (units "b.mdx") blockFile
  = ValidateCategories.Invalid (units "b.mdx: Missing 'tags' in frontmatter").
Proof. vm_compute. reflexivity. Qed.

Example blank_tag_not_counted :
  ValidateCategories.extractFrontmatter blankTagFile = Some (Some [units "life"])
  ∧ ValidateCategories.validateFile (units "c.mdx") blankTagFile
    = ValidateCategories.Valid.
Proof. split; vm_compute; reflexivity. Qed.

Lemma currentPage_in_range_witness :
  Home.currentPage (Home.parsedPage (λ _, Some 1%Z) (Some "1"))
                   (Home.totalPages Js.timeline) = 1%Z.
Proof.
  destruct (currentPage_in_range (λ _, Some 1%Z) (Some "1") Js.timeline) as [_ Hn].
  apply (Hn 1%Z); [reflexivity|]. vm_compute. split; discriminate.
Defined.

Lemma page_size_witness : Home.page Js.timeline (Some 7%Z) ≠ [].
Proof.
  destruct (page_size Js.timeline (Some 7%Z)) as (_ & Hne & _).
  apply Hne. discriminate.
Defined.

Lemma tag_filter_witness :
  Js.post "walk" "2024-03-01" ["Life"]
  ∈ Home.filteredPosts false Js.tagged (Home.activeTag (Some "life")).
Proof.
  destruct (tag_filter false Js.tagged (Some "life")) as (_ & _ & _ & Hin).
  apply (Hin "life"); [reflexivity|discriminate|].
  split; [by repeat constructor|]. exists "Life". split; reflexivity.
Defined.

Lemma main_exit_code_witness :
  ValidateCategories.main true
    [ (units "run.mdx", fileTagged "fitness"); (units "README.md", []) ] = 0%Z.
Proof.
  destruct (main_exit_code true
              [ (units "run.mdx", fileTagged "fitness"); (units "README.md", []) ])
    as (Hiff & _).
  apply Hiff. split; [reflexivity|].
  intros file Hfile. vm_compute in Hfile.
  apply list_elem_of_singleton in Hfile. rewrite Hfile. vm_compute. reflexivity.
Defined.

Lemma validated_tags_category_witness :
  ∃ t, ["fitness"] = [t]
       ∧ Categories.getPostCategory true (Some ["fitness"]) = (t, []).
Proof.
  apply (validated_tags_category (units "run.mdx") (fileTagged "fitness") true
           ["fitness"]).
  - apply Forall_forall. by repeat constructor.
  - vm_compute. reflexivity.
  - vm_compute. reflexivity.
Defined.

Lemma validated_posts_graph_witness :
  noMainTag (publishedPosts Js.categorised)
  ∧ noMainLane (publishedPosts Js.categorised)
  ∧ hyphenFreeLanes (publishedPosts Js.categorised)
  ∧ (length (branches (mapPostsToGraph Js.today0 Js.categorised)) ≤ 5)%nat.
Proof.
  apply validated_posts_graph.
  - apply Forall_forall. by repeat constructor.
  - intros post Hpost.
    change (publishedPosts Js.categorised) with Js.categorised in Hpost.
    unfold Js.categorised in Hpost.
    repeat (apply elem_of_cons in Hpost as [->|Hpost]);
      [| |by apply elem_of_nil in Hpost].
    + exists (units "run.mdx"), (fileTagged "fitness"), ["fitness"].
      split_and!; [reflexivity|vm_compute; reflexivity..].
    + exists (units "rocq.mdx"), (fileTagged "technology"), ["technology"].
      split_and!; [reflexivity|vm_compute; reflexivity..].
Defined.

Lemma drafts_leave_no_trace_witness :
  mapPostsToGraph Js.today0 Js.timeline
  = mapPostsToGraph Js.today0 (take 3 Js.timeline).
Proof.
  exact (proj1 (drafts_leave_no_trace LAYOUT_CONSTANTS Js.today0
                  (take 3 Js.timeline)
                  {| post_slug := "p4"; post_title := "p4"; post_summary := None;
                     post_date := "2023-10-01"; post_tags := Some ["mango"];
                     post_draft := Some true |} [] eq_refl)).
Defined.

Lemma commits_on_rails_witness :
  let g := mapPostsToGraph Js.today0 Js.timeline in
  ∃ c, commits (nodes g) !! 0%nat = Some c
       ∧ ∃ j b, branches g !! S j = Some b
                ∧ branch_id b = commit_branch c
                ∧ commit_x c = branch_x b
                ∧ (commit_x c < MAIN_X LAYOUT_CONSTANTS)%Q.
Proof.
  intros g.
  destruct (commits (nodes g) !! 0%nat) as [c|] eqn:Hc;
    [|vm_compute in Hc; discriminate].
  exists c. split; [reflexivity|].
  destruct (commits_on_rails Js.today0 Js.timeline) as [_ Hrail].
  exact (Hrail 0%nat (Js.post "p1" "2024-12-20" ["zebra"]) c eq_refl Hc).
Defined.

Lemma commit_on_own_rail_witness :
  let g := mapPostsToGraph Js.today0 Js.taggedMain in
  ∃ c, commits (nodes g) !! 0%nat = Some c
       ∧ ∃ j b, branches g !! S j = Some b
                ∧ branch_name b = "main"
                ∧ branch_id b = commit_branch c
                ∧ commit_x c = branch_x b.
Proof.
  intros g.
  destruct (commits (nodes g) !! 0%nat) as [c|] eqn:Hc;
    [|vm_compute in Hc; discriminate].
  exists c. split; [reflexivity|].
  apply (commit_on_own_rail Js.today0 Js.taggedMain 0%nat
           (Js.post "p" "2024-01-01" ["main"]) c "main");
    [|reflexivity|exact Hc|reflexivity].
  intros q r u v Hq Hr Hu Hv _.
  apply list_elem_of_singleton in Hq, Hr. subst q r. congruence.
Defined.

Lemma separators_between_rows_witness :
  ∃ s i, separators (nodes (mapPostsToGraph Js.today0 Js.timeline)) !! 0%nat = Some s
         ∧ (1 ≤ i < length (publishedPosts Js.timeline))%nat
         ∧ (row_y LAYOUT_CONSTANTS (i - 1) < separator_y s)%Q
         ∧ (separator_y s < row_y LAYOUT_CONSTANTS i)%Q
         ∧ separator_x s = 0%Q.
Proof.
  destruct (separators (nodes (mapPostsToGraph Js.today0 Js.timeline)) !! 0%nat)
    as [s|] eqn:Hs; [|vm_compute in Hs; discriminate].
  destruct (separators_between_rows Js.today0 Js.timeline s) as (i & Hi).
  { by eapply list_elem_of_lookup_2. }
  exists s, i. split; [reflexivity|exact Hi].
Defined.

Lemma branch_colours_witness :
  ∃ b, branches (mapPostsToGraph Js.today0 Js.timeline) !! 1%nat = Some b
       ∧ branch_color b = "#3b82f6".
Proof.
  destruct (branches (mapPostsToGraph Js.today0 Js.timeline) !! 1%nat)
    as [b|] eqn:Hb; [|vm_compute in Hb; discriminate].
  exists b. split; [reflexivity|].
  destruct (branch_colours Js.today0 Js.timeline) as (Hcolour & _).
  exact (Hcolour 0%nat b Hb).
Defined.

Lemma nodes_within_height_witness :
  let g := mapPostsToGraph Js.today0 Js.timeline in
  ∃ n, nodes g !! 0%nat = Some n
       ∧ (0 < node_y n)%Q ∧ (node_y n < GitGraph.height g)%Q.
Proof.
  intros g.
  destruct (nodes g !! 0%nat) as [n|] eqn:Hn; [|vm_compute in Hn; discriminate].
  exists n. split; [reflexivity|].
  apply nodes_within_height. by eapply list_elem_of_lookup_2.
Defined.

Lemma lane_rail_ranges_witness :
  GitGraph.branchRanges
    (mapPostsToGraph Js.today0
       [ Js.post "a" "2024-03-01" ["life"]; Js.post "b" "2024-02-01" [];
         Js.post "c" "2024-01-01" ["life"] ]) !! "life"
  = Some {| GitGraph.minY := Finite 24; GitGraph.maxY := Finite 120 |}.
Proof.
  rewrite lane_rail_ranges by discriminate. vm_compute. reflexivity.
Defined.

Lemma tooltip_table_witness :
  GitGraph.commitMetaBySlug (mapPostsToGraph Js.today0 Js.timeline) !! "p2"
  = Some {| GitGraph.meta_title := "p2"; GitGraph.meta_summary := None;
            GitGraph.meta_date := "2024-11-15" |}.
Proof.
  destruct (tooltip_table Js.today0 Js.timeline) as (_ & _ & Hown).
  apply (λ Hnd, Hown Hnd (Js.post "p2" "2024-11-15" ["Apple"])).
  - apply (bool_decide_unpack _). vm_compute. exact I.
  - by repeat constructor.
Defined.

Lemma formatSummary_fits_witness :
  (∃ kept,
     GitGraph.formatSummary (Some (units Js.longSummary)) = kept ++ units "..."
     ∧ kept `prefix_of` trim (units Js.longSummary)
     ∧ (length kept ≤ 77)%nat)
  ∧ GitGraph.formatSummary (Some (replicate 50 233%N))
    = trim (replicate 50 233%N)
  ∧ GitGraph.formatSummary (Some (units "   "))
    = units "No summary available.".
Proof.
  split_and!.
  - destruct (formatSummary_fits (Some (units Js.longSummary))) as (_ & Hcut & _).
    apply (Hcut (units Js.longSummary) eq_refl).
    apply Nat.ltb_lt. vm_compute. reflexivity.
  - destruct (formatSummary_fits (Some (replicate 50 233%N))) as (_ & _ & Hfit & _).
    apply (Hfit (replicate 50 233%N) eq_refl).
    split; apply Nat.leb_le; vm_compute; reflexivity.
  - destruct (formatSummary_fits (Some (units "   "))) as (_ & _ & _ & Hnone).
    apply Hnone. vm_compute. reflexivity.
Defined.

Lemma listLayout_display_witness :
  ListLayout.displayPosts false Js.tagged [] None "" = Js.tagged.
Proof.
  destruct (listLayout_display false Js.tagged [] None "") as (_ & _ & _ & Hidle).
  destruct (Hidle eq_refl) as [_ Hall]. exact (Hall eq_refl eq_refl).
Defined.
